(** * slsa-provenance generate: subjects, builder identity and statement

    A shallow embedding of [cmd/slsa-provenance/cli/generate.go].  The three
    functions of the file ([subjects], [builderID] and the [Exec] closure of
    [Generate]) are translated as they are written.  What they call from Go's
    standard library ([crypto/sha256], [encoding/hex], [path/filepath], [os],
    [encoding/json]) is modelled first, each from its documented behaviour on
    a Unix host. *)

From Stdlib Require Import ZArith List Strings.String Strings.Ascii Strings.Byte Lia.
From stdpp Require Import base option list strings gmap pretty.

Local Open Scope Z_scope.

(** ** Bytes *)

Definition byte_to_Z (b : byte) : Z := Z.of_N (Byte.to_N b).

Definition byte_of_Z (z : Z) : byte :=
  default x00 (Byte.of_N (Z.to_N (z mod 256))).

(** ** crypto/sha256 (FIPS 180-4), 32-bit words as [Z] with the wrap-around
    written out *)

Module sha256.

Definition wrap32 (x : Z) : Z := x mod 2 ^ 32.
Definition add32 (x y : Z) : Z := wrap32 (x + y).
Definition rotr (n x : Z) : Z :=
  Z.lor (Z.shiftr x n) (wrap32 (Z.shiftl x (32 - n))).
Definition not32 (x : Z) : Z := Z.lxor x (2 ^ 32 - 1).

Definition Ch (x y z : Z) : Z := Z.lxor (Z.land x y) (Z.land (not32 x) z).
Definition Maj (x y z : Z) : Z :=
  Z.lxor (Z.lxor (Z.land x y) (Z.land x z)) (Z.land y z).
Definition bigSigma0 (x : Z) : Z :=
  Z.lxor (Z.lxor (rotr 2 x) (rotr 13 x)) (rotr 22 x).
Definition bigSigma1 (x : Z) : Z :=
  Z.lxor (Z.lxor (rotr 6 x) (rotr 11 x)) (rotr 25 x).
Definition smallSigma0 (x : Z) : Z :=
  Z.lxor (Z.lxor (rotr 7 x) (rotr 18 x)) (Z.shiftr x 3).
Definition smallSigma1 (x : Z) : Z :=
  Z.lxor (Z.lxor (rotr 17 x) (rotr 19 x)) (Z.shiftr x 10).

(** The first 64 primes. *)
Definition isPrime (n : Z) : bool :=
  forallb (fun d => negb (n mod Z.of_nat d =? 0)) (seq 2 (Z.to_nat n - 2)).

Definition primes : list Z :=
  Eval vm_compute in filter (fun n => isPrime n) (map Z.of_nat (seq 2 310)).

(** The integer [k]-th root, one bit after the other from bit [bit] down:
    the largest [r] below [2 ^ bit] with [r ^ k <= n]. *)
Fixpoint iroot (k : Z) (bit : nat) (n r : Z) : Z :=
  match bit with
  | O => r
  | S b =>
      let r' := r + 2 ^ Z.of_nat b in
      if r' ^ k <=? n then iroot k b n r' else iroot k b n r
  end.

(** The round constants: the first 32 bits of the fractional parts of the
    cube roots of the first 64 primes. *)
Definition K : list Z :=
  Eval vm_compute in map (fun p => wrap32 (iroot 3 40 (p * 2 ^ 96) 0)) primes.

(** The initial hash value: the first 32 bits of the fractional parts of
    the square roots of the first 8 primes. *)
Definition init : list Z :=
  Eval vm_compute in map (fun p => wrap32 (iroot 2 40 (p * 2 ^ 64) 0)) (take 8 primes).

(** The [n] low bytes of [x], most significant first. *)
Fixpoint be_bytes (n : nat) (x : Z) : list Z :=
  match n with
  | O => []
  | S m => Z.shiftr x (8 * Z.of_nat m) mod 256 :: be_bytes m x
  end.

Fixpoint be_word (bs : list Z) (acc : Z) : Z :=
  match bs with
  | [] => acc
  | b :: rest => be_word rest (acc * 256 + b)
  end.

(** One 1 bit, zeros up to 56 modulo 64, the bit length on 8 bytes. *)
Definition padding (len : Z) : list Z :=
  0x80 :: repeat 0 (Z.to_nat ((55 - len) mod 64)) ++ be_bytes 8 (8 * len).

Fixpoint chunks (n k : nat) (l : list Z) : list (list Z) :=
  match k with
  | O => []
  | S k' => take n l :: chunks n k' (drop n l)
  end.

(** The message schedule, latest word first. *)
Fixpoint schedule (n : nat) (w : list Z) : list Z :=
  match n with
  | O => w
  | S m =>
      let x := add32 (add32 (smallSigma1 (nth 1 w 0)) (nth 6 w 0))
                     (add32 (smallSigma0 (nth 14 w 0)) (nth 15 w 0)) in
      schedule m (x :: w)
  end.

Definition round (st : list Z) (kw : Z * Z) : list Z :=
  match st with
  | [a; b; c; d; e; f; g; h] =>
      let t1 :=
        add32 (add32 (add32 (add32 h (bigSigma1 e)) (Ch e f g)) (fst kw)) (snd kw) in
      let t2 := add32 (bigSigma0 a) (Maj a b c) in
      [add32 t1 t2; a; b; c; add32 d t1; e; f; g]
  | _ => st
  end.

Definition block (h : list Z) (p : list Z) : list Z :=
  let w16 := map (fun b => be_word b 0) (chunks 4 16 p) in
  let w := rev (schedule 48 (rev w16)) in
  let st := fold_left round (combine K w) h in
  map (fun xy => add32 (fst xy) (snd xy)) (combine h st).

Definition digest (msg : list Z) : list Z :=
  let padded := msg ++ padding (Z.of_nat (length msg)) in
  let h := fold_left block (chunks 64 (length padded / 64) padded) init in
  concat (map (be_bytes 4) h).

(** [sha256.Sum256]: the 32 bytes of the checksum. *)
Definition Sum256 (data : list byte) : list byte :=
  map byte_of_Z (digest (map byte_to_Z data)).

End sha256.

(** ** encoding/hex *)

Module hex.

Definition hextable : string := "0123456789abcdef".

Definition digit (n : Z) : ascii :=
  default "0"%char (String.get (Z.to_nat n) hextable).

(** [hex.EncodeToString]: [hextable[v>>4]] then [hextable[v&0x0f]] per byte. *)
Fixpoint EncodeToString (src : list byte) : string :=
  match src with
  | [] => ""
  | v :: rest =>
      String (digit (Z.shiftr (byte_to_Z v) 4))
        (String (digit (Z.land (byte_to_Z v) 15)) (EncodeToString rest))
  end.

End hex.

(** ** Errors *)

(** The error numbers the model tells apart. *)
Inductive Errno := ENOENT | EACCES | ENOTDIR | EISDIR | ELOOP | EIO | ENOSPC.

(** The error values that reach [Exec]: [*fs.PathError] from [os], the
    sentinels of [path/filepath], plain messages ([errors.New], [fmt.Errorf]),
    the two failures of [encoding/json], and [errors.Wrap] of pkg/errors. *)
Inductive error :=
| PathError (Op Path : string) (Err : Errno)
| SkipDir
| SkipAll
| errorString (s : string)
| SyntaxError (msg : string)
| UnmarshalTypeError (Value Type_ Struct Field : string)
| withMessage (cause : error) (msg : string).

Definition strerror (e : Errno) : string :=
  match e with
  | ENOENT => "no such file or directory"
  | EACCES => "permission denied"
  | ENOTDIR => "not a directory"
  | EISDIR => "is a directory"
  | ELOOP => "too many levels of symbolic links"
  | EIO => "input/output error"
  | ENOSPC => "no space left on device"
  end.

(** The [Error()] method. *)
Fixpoint Error (e : error) : string :=
  match e with
  | PathError op path err => op +:+ " " +:+ path +:+ ": " +:+ strerror err
  | SkipDir => "skip this directory"
  | SkipAll => "skip everything and stop the walk"
  | errorString s => s
  | SyntaxError msg => msg
  | UnmarshalTypeError value type struct field =>
      if String.eqb struct "" && String.eqb field "" then
        "json: cannot unmarshal " +:+ value +:+ " into Go value of type " +:+ type
      else
        "json: cannot unmarshal " +:+ value +:+ " into Go struct field "
        +:+ struct +:+ "." +:+ field +:+ " of type " +:+ type
  | withMessage cause msg => msg +:+ ": " +:+ Error cause
  end.

Definition isSkipDir (e : error) : bool :=
  match e with SkipDir => true | _ => false end.

Definition isSkipAll (e : error) : bool :=
  match e with SkipAll => true | _ => false end.

(** [errors.Wrap(err, message)]. *)
Definition Wrap (err : error) (message : string) : error :=
  withMessage err message.

(** ** path/filepath, with [/] as the separator *)

Module filepath.

Definition Separator : ascii := "/".

Definition IsPathSeparator (c : ascii) : bool := Ascii.eqb c Separator.

(** The elements between separators: [split "a/b" = ["a"; "b"]] and
    [split "" = [""]]. *)
Fixpoint split (s : string) : list string :=
  match s with
  | EmptyString => [EmptyString]
  | String c rest =>
      if IsPathSeparator c then EmptyString :: split rest
      else match split rest with
           | [] => [String c EmptyString]
           | e :: es => String c e :: es
           end
  end.

Definition join (elems : list string) : string := String.concat "/" elems.

Definition rooted (path : string) : bool :=
  match path with
  | String c _ => IsPathSeparator c
  | EmptyString => false
  end.

(** The loop of [Clean] over the elements of the path.  [out] is the output
    buffer, its last element first: an empty element and [.] are dropped;
    [..] removes the last element written, unless there is none or it is
    itself a [..] that could not be resolved, in which case [..] is dropped
    at the root and kept otherwise. *)
Fixpoint cleanLoop (isRooted : bool) (elems out : list string) : list string :=
  match elems with
  | [] => rev out
  | e :: rest =>
      if String.eqb e "" then cleanLoop isRooted rest out
      else if String.eqb e "." then cleanLoop isRooted rest out
      else if String.eqb e ".." then
        match out with
        | last :: out' =>
            if String.eqb last ".." then cleanLoop isRooted rest (e :: out)
            else cleanLoop isRooted rest out'
        | [] =>
            if isRooted then cleanLoop isRooted rest out
            else cleanLoop isRooted rest [e]
        end
      else cleanLoop isRooted rest (e :: out)
  end.

Definition cleanElems (path : string) : list string :=
  cleanLoop (rooted path) (split path) [].

Definition render (isRooted : bool) (elems : list string) : string :=
  if isRooted then "/" +:+ join elems
  else match elems with
       | [] => "."
       | _ => join elems
       end.

(** [filepath.Clean]. *)
Definition Clean (path : string) : string :=
  if String.eqb path "" then "."
  else render (rooted path) (cleanElems path).

(** [filepath.Join]: empty elements in front are ignored, the rest is joined
    with separators and cleaned. *)
Fixpoint Join (elem : list string) : string :=
  match elem with
  | [] => ""
  | e :: rest => if String.eqb e "" then Join rest else Clean (join elem)
  end.

Fixpoint stripSeparators (rev_path : list ascii) : list ascii :=
  match rev_path with
  | c :: rest => if IsPathSeparator c then stripSeparators rest else rev_path
  | [] => []
  end.

Fixpoint lastElement (rev_path : list ascii) : list ascii :=
  match rev_path with
  | c :: rest => if IsPathSeparator c then [] else c :: lastElement rest
  | [] => []
  end.

(** [filepath.Base]: trailing separators are stripped, then everything up to
    the last separator; [.] for the empty path, [/] for a path of separators
    only. *)
Definition Base (path : string) : string :=
  if String.eqb path "" then "."
  else
    let stripped := stripSeparators (rev (list_ascii_of_string path)) in
    let name := string_of_list_ascii (rev (lastElement stripped)) in
    if String.eqb name "" then "/" else name.

(** The elements the loop of [Rel] steps through in a cleaned path. *)
Definition relElems (cleaned : string) : list string :=
  if String.eqb cleaned "" then []
  else if String.eqb cleaned "/" then [""]
  else split cleaned.

(** The loop of [Rel] and what follows it: the common elements are skipped;
    at the first differing pair the base element must not be [..]; the base
    elements left are climbed with [..], then the target elements left
    follow. *)
Fixpoint relLoop (base targ : list string) : option (list string) :=
  match base, targ with
  | [], _ => Some targ
  | _ :: _, [] => Some (repeat ".." (length base))
  | b :: base', t :: targ' =>
      if String.eqb t b then relLoop base' targ'
      else if String.eqb b ".." then None
      else Some (repeat ".." (length base) ++ targ)
  end.

(** [filepath.Rel]. *)
Definition Rel (basepath targpath : string) : error + string :=
  let base := Clean basepath in
  let targ := Clean targpath in
  if String.eqb targ base then inr "."
  else
    let base := if String.eqb base "." then "" else base in
    let cant :=
      errorString ("Rel: can't make " +:+ targpath +:+ " relative to " +:+ basepath) in
    if negb (Bool.eqb (rooted base) (rooted targ)) then inl cant
    else match relLoop (relElems base) (relElems targ) with
         | None => inl cant
         | Some elems => inr (join elems)
         end.

End filepath.

(** ** os: the file system as the scan sees it *)

(** An entry of the file system at the moment of the scan, with everything
    below it.  The scan asks three things of an entry: [os.Lstat] (does it
    answer, and is the entry a directory), the names in a directory, and
    [os.ReadFile] of an entry that is not a directory.
    - [NoInfo e]: [os.Lstat] fails on the entry with [e];
    - [File contents]: not a directory, and reading it gives [contents];
    - [Unreadable op e]: not a directory, and [os.ReadFile] fails on it with
      [e] in the operation [op]: [open], or [read] after the entry was
      opened (a link to a directory is opened and then fails to be read,
      with EISDIR);
    - [DirErr op e]: a directory whose names cannot be read, [op] being
      [open], or [readdirent] after the directory was opened;
    - [Dir entries]: a directory and its entries, in the order in which
      [filepath.Walk] takes them (it sorts the names of a directory). *)
#[local] Unset Elimination Schemes.
Inductive node :=
| NoInfo (e : Errno)
| File (contents : list byte)
| Unreadable (op : string) (e : Errno)
| DirErr (op : string) (e : Errno)
| Dir (entries : list (string * node)).
#[local] Set Elimination Schemes.

(** [fs.FileInfo] as [os.Lstat] returns it: the entry described.  Reading
    the path the walk handed over reads that same entry (nothing changes
    between the two calls). *)
Definition FileInfo := node.

Definition IsDir (info : FileInfo) : bool :=
  match info with
  | Dir _ | DirErr _ _ => true
  | _ => false
  end.

(** [os.ReadFile name] on the entry found at [name]: the file is opened,
    then read to its end; an error is the [PathError] of the operation that
    failed. *)
Definition ReadFile (name : string) (entry : node) : error + list byte :=
  match entry with
  | File contents => inr contents
  | Unreadable op e => inl (PathError op name e)
  | NoInfo e => inl (PathError "open" name e)
  | Dir _ | DirErr _ _ => inl (PathError "read" name EISDIR)
  end.

(** [os.IsNotExist]: the error, taken out of a [PathError], is ENOENT. *)
Definition IsNotExist (err : option error) : bool :=
  match err with
  | Some (PathError _ _ ENOENT) => true
  | _ => false
  end.

(** [os.Getenv]: the value of the variable, empty when it is not set. *)
Definition Getenv (environ : gmap string string) (key : string) : string :=
  default "" (environ !! key).

(** ** filepath.Walk *)

(** [filepath.WalkFunc], with the variables the closure captures threaded
    through as a state [S]; [None] is the nil error and the nil [FileInfo]. *)
Definition WalkFunc (S : Type) : Type :=
  string -> option FileInfo -> option error -> S -> S * option error.

(** [walk] of path/filepath: a non-directory is handed to [walkFn]; a
    directory is handed over with the error of reading its names, and, when
    neither that nor [walkFn] failed, its entries follow in order.  An entry
    on which [os.Lstat] fails is reported to [walkFn] without a [FileInfo].
    [SkipDir] from [walkFn] skips a directory, or the rest of the directory
    of a file. *)
Fixpoint walk {S : Type} (walkFn : WalkFunc S) (path : string) (info : node)
    (s : S) {struct info} : S * option error :=
  match info with
  | NoInfo e => walkFn path None (Some (PathError "lstat" path e)) s
  | File _ | Unreadable _ _ => walkFn path (Some info) None s
  | DirErr op e => walkFn path (Some info) (Some (PathError op path e)) s
  | Dir entries =>
      let '(s1, err1) := walkFn path (Some info) None s in
      match err1 with
      | Some _ => (s1, err1)
      | None =>
          (fix each (names : list (string * node)) (s : S) : S * option error :=
             match names with
             | [] => (s, None)
             | (name, child) :: rest =>
                 let filename := filepath.Join [path; name] in
                 match child with
                 | NoInfo e =>
                     let '(s', err) :=
                       walkFn filename None (Some (PathError "lstat" filename e)) s in
                     match err with
                     | Some e' => if isSkipDir e' then each rest s' else (s', err)
                     | None => each rest s'
                     end
                 | _ =>
                     let '(s', err) := walk walkFn filename child s in
                     match err with
                     | Some e' =>
                         if negb (IsDir child) || negb (isSkipDir e')
                         then (s', err) else each rest s'
                     | None => each rest s'
                     end
                 end
             end) entries s1
      end
  end.

(** [filepath.Walk root fn] over the file system [fsys], which gives the
    entry each path resolves to; a path it does not hold does not exist. *)
Definition Walk {S : Type} (fsys : gmap string node) (root : string)
    (fn : WalkFunc S) (s : S) : S * option error :=
  let '(s', err) :=
    match fsys !! root with
    | None => fn root None (Some (PathError "lstat" root ENOENT)) s
    | Some info => walk fn root info s
    end in
  match err with
  | Some e => if isSkipDir e || isSkipAll e then (s', None) else (s', err)
  | None => (s', None)
  end.

(** ** encoding/json *)

(** A JSON value; a number keeps its literal. *)
#[local] Unset Elimination Schemes.
Inductive json :=
| JNull
| JBool (b : bool)
| JNumber (literal : string)
| JString (s : string)
| JArray (elems : list json)
| JObject (members : list (string * json)).
#[local] Set Elimination Schemes.

(** [json.RawMessage]: the text of one JSON value, kept undecoded.  A raw
    message filled by [json.Unmarshal] holds a valid JSON text, and it is
    empty when the document had no such member: it is modelled by the value
    the text denotes, [None] when empty. *)
Definition RawMessage : Type := option json.

(** The name encoding/json gives a value in a type error. *)
Definition kindOf (v : json) : string :=
  match v with
  | JNull => "null"
  | JBool _ => "bool"
  | JNumber _ => "number"
  | JString _ => "string"
  | JArray _ => "array"
  | JObject _ => "object"
  end.

(** Member names match field names up to case.  [foldName] brings a name to
    the form compared: ASCII letters in upper case, and the two other
    characters that fold to an ASCII letter (U+017F to S, U+212A to K). *)
Definition upper (c : ascii) : ascii :=
  let n := nat_of_ascii c in
  if (97 <=? n)%nat && (n <=? 122)%nat then ascii_of_nat (n - 32) else c.

Fixpoint foldName (s : list ascii) : list ascii :=
  match s with
  | [] => []
  | c :: rest =>
      match nat_of_ascii c, rest with
      | 197%nat, d :: rest' =>
          if (nat_of_ascii d =? 191)%nat then "S"%char :: foldName rest'
          else c :: foldName rest
      | 226%nat, d :: rest' =>
          match rest' with
          | e :: rest'' =>
              if (nat_of_ascii d =? 132)%nat && (nat_of_ascii e =? 170)%nat
              then "K"%char :: foldName rest''
              else c :: foldName rest
          | [] => c :: foldName rest
          end
      | _, _ => upper c :: foldName rest
      end
  end.

Definition EqualFold (a b : string) : bool :=
  bool_decide (foldName (list_ascii_of_string a) = foldName (list_ascii_of_string b)).

(** Sorting by key, as encoding/json writes a Go map. *)
Fixpoint insertByKey {A : Type} (kv : string * A) (l : list (string * A))
    : list (string * A) :=
  match l with
  | [] => [kv]
  | kv' :: rest =>
      if String.leb (fst kv) (fst kv') then kv :: l
      else kv' :: insertByKey kv rest
  end.

Definition sortByKey {A : Type} (l : list (string * A)) : list (string * A) :=
  foldr insertByKey [] l.

(** A line feed. *)
Definition LF : string := String (ascii_of_nat 10) EmptyString.

Fixpoint indentation (indent : string) (depth : nat) : string :=
  match depth with
  | O => ""
  | S d => indent +:+ indentation indent d
  end.

(** The text [json.MarshalIndent v "" indent] writes for the value [v]: each
    element of a non-empty array and each member of a non-empty object on a
    line of its own, one [indent] deeper than what holds it.  [quote] is the
    string literal encoding/json writes for a Go string, left open here. *)
Fixpoint encode (quote : string -> string) (indent : string) (depth : nat)
    (v : json) {struct v} : string :=
  let inner := LF +:+ indentation indent (S depth) in
  match v with
  | JNull => "null"
  | JBool true => "true"
  | JBool false => "false"
  | JNumber literal => literal
  | JString s => quote s
  | JArray [] => "[]"
  | JArray elems =>
      "[" +:+ inner
      +:+ String.concat ("," +:+ inner) (map (encode quote indent (S depth)) elems)
      +:+ LF +:+ indentation indent depth +:+ "]"
  | JObject [] => "{}"
  | JObject members =>
      "{" +:+ inner
      +:+ String.concat ("," +:+ inner)
            (map (fun kv : string * json =>
                    quote (fst kv) +:+ ": " +:+ encode quote indent (S depth) (snd kv))
                 members)
      +:+ LF +:+ indentation indent depth +:+ "}"
  end.

(** A Go [map[string]string] as a JSON object, keys sorted.  The nil map,
    for which encoding/json writes [null], is not told apart from the empty
    one. *)
Definition jsonOfMap (m : gmap string string) : json :=
  JObject (map (fun kv : string * string => (fst kv, JString (snd kv)))
               (sortByKey (map_to_list m))).

(** ** lib/intoto: the statement and its parts

    The package is not among the sources.  The struct types are declared
    here with the fields [generate.go] reads and writes ([Subject], [Item],
    [Recipe], the [Predicate] of a statement); the fields it does not touch,
    the constructor and its options follow the specification. *)

Abbreviation DigestSet := (gmap string string).

Module Subject.
Record t := { Name : string; Digest : DigestSet }.
End Subject.

Module Item.
Record t := { URI : string; Digest : DigestSet }.
End Item.

Module Builder.
Record t := { ID : string }.
End Builder.

Module Recipe.
Record t := {
  Type_ : string;
  DefinedInMaterial : Z;
  EntryPoint : string;
  Arguments : gmap string string }.
End Recipe.

Module Metadata.
Record t := { BuildInvocationID : string }.
End Metadata.

Module Predicate.
Record t := {
  Builder : Builder.t;
  Recipe : Recipe.t;
  Metadata : Metadata.t;
  Materials : list Item.t }.
End Predicate.

Module Statement.
Record t := {
  Type_ : string;
  PredicateType : string;
  Subject : list Subject.t;
  Predicate : Predicate.t }.
End Statement.

(** Assignments to the fields of a statement. *)
Definition setSubject (s : list Subject.t) (stmt : Statement.t) : Statement.t :=
  {| Statement.Type_ := Statement.Type_ stmt;
     Statement.PredicateType := Statement.PredicateType stmt;
     Statement.Subject := s;
     Statement.Predicate := Statement.Predicate stmt |}.

Definition setPredicate (p : Predicate.t) (stmt : Statement.t) : Statement.t :=
  {| Statement.Type_ := Statement.Type_ stmt;
     Statement.PredicateType := Statement.PredicateType stmt;
     Statement.Subject := Statement.Subject stmt;
     Statement.Predicate := p |}.

Definition setBuilder (b : Builder.t) (stmt : Statement.t) : Statement.t :=
  let p := Statement.Predicate stmt in
  setPredicate {| Predicate.Builder := b;
                  Predicate.Recipe := Predicate.Recipe p;
                  Predicate.Metadata := Predicate.Metadata p;
                  Predicate.Materials := Predicate.Materials p |} stmt.

Definition setRecipe (r : Recipe.t) (stmt : Statement.t) : Statement.t :=
  let p := Statement.Predicate stmt in
  setPredicate {| Predicate.Builder := Predicate.Builder p;
                  Predicate.Recipe := r;
                  Predicate.Metadata := Predicate.Metadata p;
                  Predicate.Materials := Predicate.Materials p |} stmt.

Definition setMetadata (m : Metadata.t) (stmt : Statement.t) : Statement.t :=
  let p := Statement.Predicate stmt in
  setPredicate {| Predicate.Builder := Predicate.Builder p;
                  Predicate.Recipe := Predicate.Recipe p;
                  Predicate.Metadata := m;
                  Predicate.Materials := Predicate.Materials p |} stmt.

Definition setMaterials (ms : list Item.t) (stmt : Statement.t) : Statement.t :=
  let p := Statement.Predicate stmt in
  setPredicate {| Predicate.Builder := Predicate.Builder p;
                  Predicate.Recipe := Predicate.Recipe p;
                  Predicate.Metadata := Predicate.Metadata p;
                  Predicate.Materials := ms |} stmt.

Definition setEntryPoint (e : string) (stmt : Statement.t) : Statement.t :=
  let r := Predicate.Recipe (Statement.Predicate stmt) in
  setRecipe {| Recipe.Type_ := Recipe.Type_ r;
               Recipe.DefinedInMaterial := Recipe.DefinedInMaterial r;
               Recipe.EntryPoint := e;
               Recipe.Arguments := Recipe.Arguments r |} stmt.

Definition setArguments (a : gmap string string) (stmt : Statement.t) : Statement.t :=
  let r := Predicate.Recipe (Statement.Predicate stmt) in
  setRecipe {| Recipe.Type_ := Recipe.Type_ r;
               Recipe.DefinedInMaterial := Recipe.DefinedInMaterial r;
               Recipe.EntryPoint := Recipe.EntryPoint r;
               Recipe.Arguments := a |} stmt.

(** Modelled from the spec: the constants of lib/intoto, which is not among
    the sources; the values are those of the output shape the specification
    gives for [_type] and [predicateType]. *)
Definition StatementType : string := "https://in-toto.io/Statement/v0.1".
Definition SlsaPredicateType : string := "https://slsa.dev/provenance/v0.1".

(** Modelled from the spec: [intoto.StatementOption] and the options
    [WithSubject], [WithBuilder] and [WithMetadata] of lib/intoto, which is
    not among the sources.  An option sets its part of the statement: the
    subject list verbatim, the builder identity, the build-invocation
    identifier. *)
Definition StatementOption : Type := Statement.t -> Statement.t.

Definition WithSubject (s : list Subject.t) : StatementOption := setSubject s.

Definition WithBuilder (id : string) : StatementOption :=
  setBuilder {| Builder.ID := id |}.

Definition WithMetadata (buildInvocationID : string) : StatementOption :=
  setMetadata {| Metadata.BuildInvocationID := buildInvocationID |}.

(** Modelled from the spec: [intoto.SLSAProvenanceStatement] of lib/intoto,
    which is not among the sources.  It starts from a statement with the
    fixed [type] and [predicateType] and everything else at its zero value,
    and applies the options in order. *)
Definition SLSAProvenanceStatement (opts : list StatementOption) : Statement.t :=
  fold_left (fun stmt opt => opt stmt) opts
    {| Statement.Type_ := StatementType;
       Statement.PredicateType := SlsaPredicateType;
       Statement.Subject := [];
       Statement.Predicate :=
         {| Predicate.Builder := {| Builder.ID := "" |};
            Predicate.Recipe :=
              {| Recipe.Type_ := ""; Recipe.DefinedInMaterial := 0;
                 Recipe.EntryPoint := ""; Recipe.Arguments := ∅ |};
            Predicate.Metadata := {| Metadata.BuildInvocationID := "" |};
            Predicate.Materials := [] |} |}.

(** Modelled from the spec: the JSON member names of the statement (the
    struct tags of lib/intoto, which is not among the sources), in the order
    of the output shape the specification gives. *)
Definition jsonOfSubject (s : Subject.t) : json :=
  JObject [("name", JString (Subject.Name s));
           ("digest", jsonOfMap (Subject.Digest s))].

Definition jsonOfItem (i : Item.t) : json :=
  JObject [("uri", JString (Item.URI i));
           ("digest", jsonOfMap (Item.Digest i))].

Definition jsonOfRecipe (r : Recipe.t) : json :=
  JObject [("type", JString (Recipe.Type_ r));
           ("definedInMaterial", JNumber (pretty (Recipe.DefinedInMaterial r)));
           ("entryPoint", JString (Recipe.EntryPoint r));
           ("arguments", jsonOfMap (Recipe.Arguments r))].

Definition jsonOfPredicate (p : Predicate.t) : json :=
  JObject [("builder", JObject [("id", JString (Builder.ID (Predicate.Builder p)))]);
           ("recipe", jsonOfRecipe (Predicate.Recipe p));
           ("metadata",
            JObject [("buildInvocationId",
                      JString (Metadata.BuildInvocationID (Predicate.Metadata p)))]);
           ("materials", JArray (map jsonOfItem (Predicate.Materials p)))].

Definition jsonOfStatement (stmt : Statement.t) : json :=
  JObject [("_type", JString (Statement.Type_ stmt));
           ("predicateType", JString (Statement.PredicateType stmt));
           ("subject", JArray (map jsonOfSubject (Statement.Subject stmt)));
           ("predicate", jsonOfPredicate (Statement.Predicate stmt))].

(** [json.MarshalIndent(stmt, "", "  ")]. *)
Definition MarshalIndent (quote : string -> string) (stmt : Statement.t) : string :=
  encode quote "  " 0 (jsonOfStatement stmt).

(** ** lib/github: the context of the run *)

(** Modelled from the spec: [github.Context] of lib/github, which is not
    among the sources, with the fields [generate.go] reads: the repository
    identifier, the run ID, the workflow name, the commit SHA and the raw
    event payload. *)
Record Context := {
  Repository : string;
  RunID : string;
  Workflow : string;
  SHA : string;
  Event : RawMessage }.

(** Modelled from the spec: [github.AnyEvent] of lib/github, which is not
    among the sources: the event payload, of which the [inputs] mapping
    (string to string) is kept. *)
Record AnyEvent := { Inputs : gmap string string }.

(** Modelled from the spec: decoding the [inputs] mapping of the event (the
    field is declared in lib/github, which is not among the sources), as
    [json.Unmarshal] fills a map from string to string: the members are
    added in order, a later one replacing an earlier one; null leaves the
    empty string; any other value is a type error. *)
Fixpoint unmarshalStrings (members : list (string * json)) (m : gmap string string)
    : error + gmap string string :=
  match members with
  | [] => inr m
  | (k, JString s) :: rest => unmarshalStrings rest (<[k := s]> m)
  | (k, JNull) :: rest => unmarshalStrings rest (<[k := ""]> m)
  | (_, v) :: _ => inl (UnmarshalTypeError (kindOf v) "string" "AnyEvent" "inputs")
  end.

(** Modelled from the spec: decoding the members of the event object into
    an [AnyEvent] (declared in lib/github, which is not among the sources):
    a member named [inputs], up to case, is decoded into the mapping (null
    empties it); the other members are ignored. *)
Fixpoint unmarshalMembers (members : list (string * json)) (event : AnyEvent)
    : error + AnyEvent :=
  match members with
  | [] => inr event
  | (k, v) :: rest =>
      if EqualFold k "inputs" then
        match v with
        | JNull => unmarshalMembers rest {| Inputs := ∅ |}
        | JObject ms =>
            match unmarshalStrings ms (Inputs event) with
            | inl err => inl err
            | inr m => unmarshalMembers rest {| Inputs := m |}
            end
        | _ =>
            inl (UnmarshalTypeError (kindOf v) "map[string]string" "AnyEvent" "inputs")
        end
      else unmarshalMembers rest event
  end.

(** [json.Unmarshal(data, &event)] for [event := github.AnyEvent{}]: empty
    data is a syntax error; null changes nothing; an object is decoded
    member by member; any other value is a type error. *)
Definition unmarshalEvent (data : RawMessage) : error + AnyEvent :=
  match data with
  | None => inl (SyntaxError "unexpected end of JSON input")
  | Some JNull => inr {| Inputs := ∅ |}
  | Some (JObject members) => unmarshalMembers members {| Inputs := ∅ |}
  | Some v => inl (UnmarshalTypeError (kindOf v) "github.AnyEvent" "" "")
  end.

(** * cmd/slsa-provenance/cli/generate.go *)

Definition gitHubHostedIDSuffix : string := "/Attestations/GitHubHostedActions@v1".
Definition selfHostedIDSuffix : string := "/Attestations/SelfHostedActions@v1".
Definition typeID : string := "https://github.com/Attestations/GitHubActionsWorkflow@v1".
Definition payloadContentType : string := "application/vnd.in-toto+json".

(** [RequiredFlagError] creates an error flag error for the given flag name. *)
Definition RequiredFlagError (flagName : string) : error :=
  errorString ("no value found for required flag: " +:+ flagName).

(** [info.IsDir()] on the nil [FileInfo]; [filepath.Walk] passes a nil
    [FileInfo] only together with an error. *)
Definition nilFileInfo : error :=
  errorString "runtime error: invalid memory address or nil pointer dereference".

(** The closure [subjects] hands to [filepath.Walk] (lines 37-60); [s] is
    the slice it captures and appends to. *)
Definition hashFile (root : string) : WalkFunc (list Subject.t) :=
  fun abspath info err s =>
    match err with
    | Some _ => (s, err)
    | None =>
        match info with
        | None => (s, Some nilFileInfo)
        | Some info =>
            if IsDir info then (s, None)
            else
              match filepath.Rel root abspath with
              | inl err => (s, Some err)
              | inr relpath =>
                  (* Note: filepath.Rel() returns "." when "root" and
                     "abspath" point to the same file. *)
                  let relpath :=
                    if String.eqb relpath "." then filepath.Base root else relpath in
                  match ReadFile abspath info with
                  | inl err => (s, Some err)
                  | inr contents =>
                      let sha := sha256.Sum256 contents in
                      let shaHex := hex.EncodeToString sha in
                      (s ++ [ {| Subject.Name := relpath;
                                 Subject.Digest := {[ "sha256" := shaHex ]} |} ],
                       None)
                  end
              end
        end
    end.

(** [subjects] walks the file or directory at [root] and hashes all files.
    In [return s, filepath.Walk(...)] the call is made before the variable
    [s] is read, so what is returned is the slice as the walk left it (also
    when the walk failed), together with the error of the walk. *)
Definition subjects (fsys : gmap string node) (root : string)
    : list Subject.t * option error :=
  Walk fsys root (hashFile root) [].

Definition builderID (environ : gmap string string) (repoURI : string) : string :=
  if String.eqb (Getenv environ "GITHUB_ACTIONS") "true"
  then repoURI +:+ gitHubHostedIDSuffix
  else repoURI +:+ selfHostedIDSuffix.

(** The values of the four flags of the command. *)
Record Flags := {
  artifactPath : string;
  outputPath : string;
  githubContext : string;
  runnerContext : string }.

(** The ways [os.WriteFile] fails.  It opens the file (creating it, or
    truncating it), writes the data and closes the file:
    - [OpenFails e]: the file could not be opened; it is neither created nor
      truncated;
    - [WriteFails written e]: the file was created or truncated, and the
      write failed after [written] bytes of the data;
    - [CloseFails e]: all of the data was written, and closing the file
      failed. *)
Inductive writeFailure :=
| OpenFails (e : Errno)
| WriteFails (written : nat) (e : Errno)
| CloseFails (e : Errno).

(** What a run of the command can see of its surroundings: the file system,
    the environment, and whether and how [os.WriteFile] fails at a path. *)
Record World := {
  fsys : gmap string node;
  environ : gmap string string;
  writeError : string -> option writeFailure }.

(** What a run does besides returning: the usage text and the formatted
    lines written to [w], and [WriteFile name data perm]: the file at [name]
    was created with mode [perm], or truncated, and [data] was written to
    it. *)
Inductive effect :=
| Usage
| Fprintf (text : string)
| WriteFile (name data : string) (perm : Z).

Module os.

(** [os.WriteFile name data perm], the call faring as [outcome]: what was
    done to the file, and the error, a [PathError] of the operation that
    failed. *)
Definition WriteFile (outcome : option writeFailure) (name data : string) (perm : Z)
    : list effect * option error :=
  match outcome with
  | None => ([WriteFile name data perm], None)
  | Some (OpenFails e) => ([], Some (PathError "open" name e))
  | Some (WriteFails written e) =>
      ([WriteFile name (String.substring 0 written data) perm],
       Some (PathError "write" name e))
  | Some (CloseFails e) => ([WriteFile name data perm], Some (PathError "close" name e))
  end.

End os.

(** What [Exec] takes from encoding/json without the model fixing it: how a
    JSON text is decoded into the context of the run and into the runner
    context (the decoded runner context is not read afterwards, only the
    error is), and the string literal written for a Go string. *)
Record Codec := {
  unmarshalContext : string -> error + Context;
  unmarshalRunnerContext : string -> option error;
  quote : string -> string }.

(** Lines 105-110 of [Exec]: the scan of the artifact path; an error of the
    walk for which [os.IsNotExist] holds is replaced, any other is returned
    as it is, and the subjects are kept only when there is none. *)
Definition collectSubjects (fsys : gmap string node) (artifactPath : string)
    : error + list Subject.t :=
  let '(subjects, err) := subjects fsys artifactPath in
  if IsNotExist err then
    inl (errorString ("resource path not found: [provided=" +:+ artifactPath +:+ "]"))
  else match err with
       | Some err => inl err
       | None => inr subjects
       end.

(** Lines 130-145 of [Exec]: the recipe and the materials are written into
    the statement [stmt] that [intoto.SLSAProvenanceStatement] returned. *)
Definition completeStatement (stmt : Statement.t) (repoURI : string) (gh : Context)
    : error + Statement.t :=
  let stmt :=
    setRecipe {| Recipe.Type_ := typeID;
                 Recipe.DefinedInMaterial := 0;
                 Recipe.EntryPoint := "";
                 Recipe.Arguments := ∅ |} stmt in
  let stmt := setMaterials [] stmt in
  (* NOTE: This is inexact as multiple workflows in a repo can have the same name. *)
  let stmt := setEntryPoint (Workflow gh) stmt in
  match unmarshalEvent (Event gh) with
  | inl err => inl (Wrap err "failed to unmarshal github context event json")
  | inr event =>
      let stmt := setArguments (Inputs event) stmt in
      let stmt :=
        setMaterials
          (Predicate.Materials (Statement.Predicate stmt)
             ++ [ {| Item.URI := "git+" +:+ repoURI;
                     Item.Digest := {[ "sha1" := SHA gh ]} |} ])
          stmt in
      inr stmt
  end.

(** Lines 119-145 of [Exec]: the statement, from the subjects and the
    decoded context [gh]. *)
Definition buildStatement (environ : gmap string string)
    (subjects : list Subject.t) (gh : Context) : error + Statement.t :=
  (* NOTE: Re-runs are not uniquely identified and can cause run ID collisions. *)
  let repoURI := "https://github.com/" +:+ Repository gh in
  let stmt :=
    SLSAProvenanceStatement
      [ WithSubject subjects;
        WithBuilder (builderID environ repoURI);
        WithMetadata (repoURI +:+ "/actions/runs/" +:+ RunID gh) ] in
  completeStatement stmt repoURI gh.

(** The [Exec] closure of the command (lines 87-158). *)
Definition Exec (codec : Codec) (w : World) (flags : Flags)
    : list effect * option error :=
  if String.eqb (artifactPath flags) "" then
    ([Usage], Some (RequiredFlagError "-artifact_path"))
  else if String.eqb (outputPath flags) "" then
    ([Usage], Some (RequiredFlagError "-output_path"))
  else if String.eqb (githubContext flags) "" then
    ([Usage], Some (RequiredFlagError "-github_context"))
  else if String.eqb (runnerContext flags) "" then
    ([Usage], Some (RequiredFlagError "-runner_context"))
  else
    match collectSubjects (fsys w) (artifactPath flags) with
    | inl err => ([], Some err)
    | inr subjects =>
        match unmarshalContext codec (githubContext flags) with
        | inl err => ([], Some (Wrap err "failed to unmarshal github context json"))
        | inr gh =>
            match unmarshalRunnerContext codec (runnerContext flags) with
            | Some err => ([], Some (Wrap err "failed to unmarshal runner context json"))
            | None =>
                match buildStatement (environ w) subjects gh with
                | inl err => ([], Some err)
                | inr stmt =>
                    (* NOTE: At L1, writing the in-toto Statement type is sufficient. *)
                    let payload := MarshalIndent (quote codec) stmt in
                    let shown :=
                      Fprintf ("Saving provenance to " +:+ outputPath flags +:+ ":"
                               +:+ LF +:+ LF +:+ payload +:+ LF) in
                    let '(written, err) :=
                      os.WriteFile (writeError w (outputPath flags))
                                   (outputPath flags) payload 0x1ed (* 0755 *) in
                    match err with
                    | Some err =>
                        (shown :: written, Some (Wrap err "failed to write provenance"))
                    | None => (shown :: written, None)
                    end
                end
            end
        end
    end.

(** [*ffcli.Command], with the default values of the flags for its flag set. *)
Record Command := {
  Name : string;
  ShortUsage : string;
  ShortHelp : string;
  FlagSet : Flags;
  CommandExec : World -> Flags -> list effect * option error }.

(** [Generate] creates the command to generate provenance. *)
Definition Generate (codec : Codec) : Command :=
  {| Name := "generate";
     ShortUsage := "slsa-provenance generate";
     ShortHelp := "Generates the slsa provenance file";
     FlagSet := {| artifactPath := "";
                   outputPath := "build.provenance";
                   githubContext := "";
                   runnerContext := "" |};
     CommandExec := Exec codec |}.

(** * Notions of the specification *)

(** A name as a directory lists it: not empty, neither [.] nor [..], and
    without a separator. *)
Fixpoint noSeparator (s : string) : bool :=
  match s with
  | EmptyString => true
  | String c rest => negb (filepath.IsPathSeparator c) && noSeparator rest
  end.

Definition isName (s : string) : bool :=
  negb (String.eqb s "") && negb (String.eqb s ".") && negb (String.eqb s "..")
  && noSeparator s.

(** Every directory below [t] lists names. *)
Fixpoint namesListed (t : node) : bool :=
  match t with
  | Dir entries =>
      forallb (fun kv : string * node => isName (fst kv) && namesListed (snd kv)) entries
  | _ => true
  end.

(** No directory below [t] lists a name twice. *)
Fixpoint namesDistinct (t : node) : bool :=
  match t with
  | Dir entries =>
      bool_decide (NoDup (map fst entries))
      && forallb (fun kv : string * node => namesDistinct (snd kv)) entries
  | _ => true
  end.

(** The scan of [t] meets no I/O error: every entry answers [os.Lstat],
    every directory can be listed and every file can be read. *)
Fixpoint readable (t : node) : bool :=
  match t with
  | File _ => true
  | Dir entries => forallb (fun kv : string * node => readable (snd kv)) entries
  | _ => false
  end.

(** The regular files at and below [t], each with the names that lead to it
    from [t] and its contents, a directory's entries in order and each entry
    before the next one's. *)
Fixpoint regularFiles (t : node) : list (list string * list byte) :=
  match t with
  | File contents => [([], contents)]
  | Dir entries =>
      flat_map (fun kv : string * node =>
                  map (fun f : list string * list byte => (fst kv :: fst f, snd f))
                      (regularFiles (snd kv)))
               entries
  | _ => []
  end.

(** The subject the scan of [root] records for the file reached by [names]
    from [root]: named by its path relative to [root], the names joined by
    separators, or by the base name of [root] when [root] is the file. *)
Definition subjectOf (root : string) (f : list string * list byte) : Subject.t :=
  {| Subject.Name :=
       match fst f with
       | [] => filepath.Base root
       | names => filepath.join names
       end;
     Subject.Digest :=
       {[ "sha256" := hex.EncodeToString (sha256.Sum256 (snd f)) ]} |}.

(** Ascending order of strings, byte by byte. *)
Fixpoint ascending (l : list string) : bool :=
  match l with
  | a :: (b :: _) as rest => String.leb a b && ascending rest
  | _ => true
  end.

(** The hosted-environment flag: whether the run is on a hosted runner. *)
Definition hosted (environ : gmap string string) : bool :=
  bool_decide (environ !! "GITHUB_ACTIONS" = Some "true").

(** Every directory below [t] lists its names in ascending order, as
    [filepath.Walk] takes them. *)
Fixpoint namesAscending (t : node) : bool :=
  match t with
  | Dir entries =>
      ascending (map fst entries)
      && forallb (fun kv : string * node => namesAscending (snd kv)) entries
  | _ => true
  end.

(** The normal form [filepath.Clean] computes: some [..] first (none under
    the root), then names. *)
Definition normal (isRooted : bool) (elems : list string) : Prop :=
  exists k names,
    elems = repeat ".." k ++ names
    /\ Forall (fun n => isName n = true) names
    /\ (isRooted = true -> k = 0%nat).

(** What [walkPath] comes to when [names] are names: [root] as it was given
    for the entry itself, a cleaned path below it. *)
Definition pathAt (root : string) (names : list string) : string :=
  match names with
  | [] => root
  | _ => filepath.render (filepath.rooted root) (filepath.cleanElems root ++ names)
  end.

(** An error is neither of the two sentinels of [filepath.Walk]. *)
Definition fatal (e : error) : bool := negb (isSkipDir e) && negb (isSkipAll e).

(** The path [filepath.Walk] builds for the entry reached by [names] from
    [root]: one [filepath.Join] per name. *)
Definition walkPath (root : string) (names : list string) : string :=
  fold_left (fun path name => filepath.Join [path; name]) names root.

(** ** Concrete inputs *)

Definition bytes (s : string) : list byte := list_byte_of_string s.

(** A build output: [dist] holds [a.txt] and [sub/b.txt]; [app.bin] is a
    single file. *)
Definition distEntries : list (string * node) :=
  [ ("a.txt", File (bytes "hello"));
    ("sub", Dir [ ("b.txt", File (bytes "abc")) ]) ].

Definition outputs : gmap string node :=
  {[ "dist" := Dir distEntries; "build/app.bin" := File (bytes "abc") ]}.

(** A directory whose subjects do not come out in ascending order: the
    directory [a] is walked before the file [a.txt]. *)
Definition mixedEntries : list (string * node) :=
  [ ("a", Dir [ ("x", File (bytes "")) ]); ("a.txt", File (bytes "")) ].

Definition mixed : gmap string node := {[ "dist" := Dir mixedEntries ]}.

(** A directory with a file that cannot be read. *)
Definition lockedEntries : list (string * node) :=
  [ ("a.txt", File (bytes "hello")); ("key.pem", Unreadable "open" EACCES) ].

Definition locked : gmap string node := {[ "dist" := Dir lockedEntries ]}.

(** The context of a run started by hand with the input [env = prod]. *)
Definition dispatched : Context :=
  {| Repository := "org/repo";
     RunID := "42";
     Workflow := "release";
     SHA := "abc123";
     Event := Some (JObject [ ("inputs", JObject [ ("env", JString "prod") ]) ]) |}.

(** The statement of the run [dispatched] on a hosted runner. *)
Definition dispatchedStatement : Statement.t :=
  {| Statement.Type_ := "https://in-toto.io/Statement/v0.1";
     Statement.PredicateType := "https://slsa.dev/provenance/v0.1";
     Statement.Subject := [];
     Statement.Predicate :=
       {| Predicate.Builder :=
            {| Builder.ID :=
                 "https://github.com/org/repo/Attestations/GitHubHostedActions@v1" |};
          Predicate.Recipe :=
            {| Recipe.Type_ := "https://github.com/Attestations/GitHubActionsWorkflow@v1";
               Recipe.DefinedInMaterial := 0;
               Recipe.EntryPoint := "release";
               Recipe.Arguments := {[ "env" := "prod" ]} |};
          Predicate.Metadata :=
            {| Metadata.BuildInvocationID :=
                 "https://github.com/org/repo/actions/runs/42" |};
          Predicate.Materials :=
            [ {| Item.URI := "git+https://github.com/org/repo";
                 Item.Digest := {[ "sha1" := "abc123" ]} |} ] |} |}.

(** The statement of the run [dispatched] on a hosted runner over [dist]. *)
Definition dispatchedStatement' : Statement.t :=
  setSubject
    [ {| Subject.Name := "a.txt";
         Subject.Digest :=
           {[ "sha256" :=
                "2cf24dba5fb0a30e26e83b2ac5b9e29e1b161e5c1fa7425e73043362938b9824" ]} |};
      {| Subject.Name := "sub/b.txt";
         Subject.Digest :=
           {[ "sha256" :=
                "ba7816bf8f01cfea414140de5dae2223b00361a396177a9cb410ff61f20015ad" ]} |} ]
    dispatchedStatement.

(** The same context with no event payload. *)
Definition eventless : Context :=
  {| Repository := "org/repo";
     RunID := "42";
     Workflow := "release";
     SHA := "abc123";
     Event := None |}.

(** A codec for the examples: every text decodes to [dispatched], and a
    string is written between quotation marks as it is. *)
Definition plainCodec : Codec :=
  {| unmarshalContext := fun _ => inr dispatched;
     unmarshalRunnerContext := fun _ => None;
     quote := fun s => String (ascii_of_nat 34) (s +:+ String (ascii_of_nat 34) "") |}.

Definition hostedWorld : World :=
  {| fsys := outputs;
     environ := {[ "GITHUB_ACTIONS" := "true" ]};
     writeError := fun _ => None |}.

(** A hosted run in other surroundings: more variables in the environment. *)
Definition hostedWorld' : World :=
  {| fsys := outputs;
     environ := {[ "GITHUB_ACTIONS" := "true"; "RUNNER_OS" := "Linux"; "CI" := "true" ]};
     writeError := fun _ => None |}.

Definition selfHostedWorld : World :=
  {| fsys := outputs;
     environ := {[ "GITHUB_ACTIONS" := "TRUE" ]};
     writeError := fun _ => None |}.

Definition generateFlags : Flags :=
  {| artifactPath := "dist";
     outputPath := "build.provenance";
     githubContext := "${github}";
     runnerContext := "${runner}" |}.

(** ** The outcome of a scan *)

(** What the scan of [t] comes to: the regular files met before the first
    entry that fails, and that entry, if there is one: the names that lead
    to it, the operation that failed on it and the error number. *)
Fixpoint scanOf (t : node)
    : list (list string * list byte) * option (list string * string * Errno) :=
  match t with
  | NoInfo e => ([], Some ([], "lstat", e))
  | File contents => ([([], contents)], None)
  | Unreadable op e => ([], Some ([], op, e))
  | DirErr op e => ([], Some ([], op, e))
  | Dir entries =>
      (fix each (es : list (string * node)) :=
         match es with
         | [] => ([], None)
         | (name, child) :: rest =>
             let '(files, failure) := scanOf child in
             let files :=
               map (fun f : list string * list byte => (name :: fst f, snd f)) files in
             match failure with
             | Some (names, op, e) => (files, Some (name :: names, op, e))
             | None =>
                 let '(files', failure') := each rest in (files ++ files', failure')
             end
         end) entries
  end.

(** The error of a scan of [root] that failed at the entry reached by
    [names]: the error of [os], under the path the walk built for the
    entry. *)
Definition failureError (root : string)
    (failure : option (list string * string * Errno)) : option error :=
  match failure with
  | Some (names, op, e) => Some (PathError op (walkPath root names) e)
  | None => None
  end.

(** A character of the table of [encoding/hex]. *)
Definition isLowerHex (c : ascii) : bool :=
  existsb (Ascii.eqb c) (list_ascii_of_string hex.hextable).

Fixpoint lowerHex (s : string) : bool :=
  match s with
  | EmptyString => true
  | String c rest => isLowerHex c && lowerHex rest
  end.

(** A digest as the scan records it: 64 lowercase hexadecimal digits under
    the key [sha256], and nothing else. *)
Definition sha256Digest (d : gmap string string) : Prop :=
  exists h, d = {[ "sha256" := h ]} /\ String.length h = 64%nat /\ lowerHex h = true.

(** A directory in which an entry is gone by the time the walk reaches it. *)
Definition vanishedEntries : list (string * node) :=
  [ ("a.txt", File (bytes "hello"));
    ("cache", Dir [ ("tmp.lock", NoInfo ENOENT) ]);
    ("z.txt", File (bytes "abc")) ].

Definition vanished : gmap string node := {[ "dist" := Dir vanishedEntries ]}.

(** A codec that reads one text for each context and refuses any other. *)
Definition strictCodec : Codec :=
  {| unmarshalContext := fun s =>
       if String.eqb s "${github}" then inr dispatched
       else inl (SyntaxError "unexpected end of JSON input");
     unmarshalRunnerContext := fun s =>
       if String.eqb s "${runner}" then None
       else Some (SyntaxError "unexpected end of JSON input");
     quote := quote plainCodec |}.

(** [os.Lstat] fails on the path [p] with this error number: the path does
    not resolve to an entry.  A path the file system does not hold names
    nothing (ENOENT); a path on which [os.Lstat] fails otherwise is held as
    [NoInfo]. *)
Definition lstatErrno (fsys : gmap string node) (p : string) : option Errno :=
  match fsys !! p with
  | None => Some ENOENT
  | Some (NoInfo e) => Some e
  | Some _ => None
  end.

(** A path below a regular file: [build/app.bin] is a file, so nothing is
    found at [build/app.bin/sig], and [os.Lstat] answers ENOTDIR. *)
Definition belowFile : gmap string node :=
  {[ "build/app.bin" := File (bytes "abc"); "build/app.bin/sig" := NoInfo ENOTDIR ]}.

(** A directory with a link to a directory in it: [os.Lstat] describes the
    link, which is not a directory; [os.ReadFile] opens what it leads to and
    fails to read it. *)
Definition linkedEntries : list (string * node) :=
  [ ("a.txt", File (bytes "hello")); ("lnk", Unreadable "read" EISDIR) ].

Definition linked : gmap string node := {[ "dist" := Dir linkedEntries ]}.

(** A world in which the disk is full after 16 bytes of the output file. *)
Definition fullDiskWorld : World :=
  {| fsys := outputs;
     environ := {[ "GITHUB_ACTIONS" := "true" ]};
     writeError := fun _ => Some (WriteFails 16 ENOSPC) |}.

(** * Proofs *)

Import filepath.

(** ** Strings and their elements *)

Lemma split_nonempty s : split s ≠ [].
Proof. destruct s as [|c s]; simpl; [done|]. destruct (IsPathSeparator c); [done|]. by destruct (split s). Qed.

Lemma split_cons_sep s : split (String "/" s) = "" :: split s.
Proof. reflexivity. Qed.

Lemma split_app a b : split (a +:+ String "/" b) = split a ++ split b.
Proof.
  induction a as [|c a IH]; simpl; [done|].
  destruct (IsPathSeparator c); rewrite IH; [done|].
  pose proof (split_nonempty a) as Hne.
  destruct (split a); [done|]. reflexivity.
Qed.

Lemma split_noSeparator s : noSeparator s = true → split s = [s].
Proof.
  induction s as [|c s IH]; simpl; [done|].
  intros [Hc Hs]%andb_prop. rewrite (negb_true_iff _) in Hc. rewrite Hc, (IH Hs). done.
Qed.

Lemma split_Forall_noSeparator s : Forall (λ e, noSeparator e = true) (split s).
Proof.
  induction s as [|c s IH]; simpl; [by repeat constructor|].
  destruct (IsPathSeparator c) eqn:Hc; [by constructor|].
  pose proof (split_nonempty s). destruct (split s) as [|e es]; [done|].
  inversion_clear IH. constructor; [|done]. simpl. by rewrite Hc.
Qed.

Lemma join_cons e es : es ≠ [] → join (e :: es) = e +:+ String "/" (join es).
Proof. destruct es; [done|]. reflexivity. Qed.

Lemma split_join es :
  es ≠ [] → Forall (λ e, noSeparator e = true) es → split (join es) = es.
Proof.
  induction es as [|e es IH]; [done|]. intros _ Hall. inversion_clear Hall.
  destruct es as [|e' es].
  - by apply split_noSeparator.
  - rewrite join_cons by done. rewrite split_app, IH by done.
    by rewrite split_noSeparator.
Qed.

Lemma isName_spec n :
  isName n = true ↔ n ≠ "" ∧ n ≠ "." ∧ n ≠ ".." ∧ noSeparator n = true.
Proof.
  unfold isName. rewrite !andb_true_iff, !negb_true_iff, !String.eqb_neq. tauto.
Qed.

Lemma isName_noSeparator n : isName n = true → noSeparator n = true.
Proof. rewrite isName_spec. tauto. Qed.

Lemma rooted_noSeparator e rest : noSeparator e = true → e ≠ "" → rooted (e +:+ rest) = false.
Proof.
  destruct e as [|c e]; [done|]. simpl. intros [Hc _]%andb_prop _.
  by apply negb_true_iff.
Qed.

Lemma rooted_app p rest : p ≠ "" → rooted (p +:+ rest) = rooted p.
Proof. by destruct p. Qed.


(** ** The normal form [Clean] computes *)

Lemma repeat_snoc {A} (x : A) k : repeat x k ++ [x] = x :: repeat x k.
Proof. induction k as [|k IH]; simpl; [done|]. by rewrite IH. Qed.

Lemma normal_nil r : normal r [].
Proof. exists 0%nat, []. by split_and!. Qed.

Lemma normal_app r elems ns :
  normal r elems → Forall (λ n, isName n = true) ns → normal r (elems ++ ns).
Proof.
  intros (k & names & -> & Hn & Hr) Hns. exists k, (names ++ ns).
  split_and!; [by rewrite app_assoc | by apply Forall_app | done].
Qed.

Lemma normal_noSeparator r elems :
  normal r elems → Forall (λ e, noSeparator e = true) elems.
Proof.
  intros (k & names & -> & Hn & _). apply Forall_app. split.
  - apply Forall_forall. intros x Hx%list_elem_of_In%repeat_spec. by subst.
  - eapply Forall_impl; [done|]. intros n. apply isName_noSeparator.
Qed.

Lemma normal_head_nonempty r e elems : normal r (e :: elems) → e ≠ "".
Proof.
  intros (k & names & Heq & Hn & _). destruct k as [|k]; simpl in Heq.
  - destruct names as [|n names]; [done|]. injection Heq as -> _.
    inversion_clear Hn. by apply isName_spec.
  - by injection Heq as -> _.
Qed.

(** The loop leaves names where it finds them. *)
Lemma cleanLoop_names r ns out :
  Forall (λ n, isName n = true) ns → cleanLoop r ns out = rev out ++ ns.
Proof.
  intros Hns. revert out. induction Hns as [|n ns Hn _ IH]; intros out; simpl.
  - by rewrite app_nil_r.
  - apply isName_spec in Hn as (H1 & H2 & H3 & _).
    rewrite <- String.eqb_neq in H1, H2, H3. rewrite H1, H2, H3.
    rewrite IH. simpl. by rewrite <- app_assoc.
Qed.

Lemma cleanLoop_app_names r elems ns out :
  Forall (λ n, isName n = true) ns →
  cleanLoop r (elems ++ ns) out = cleanLoop r elems out ++ ns.
Proof.
  intros Hns. revert out. induction elems as [|e elems IH]; intros out; simpl.
  - by apply cleanLoop_names.
  - repeat case_match; by rewrite IH.
Qed.

Lemma cleanLoop_dots k j rest :
  cleanLoop false (repeat ".." k ++ rest) (repeat ".." j)
  = cleanLoop false rest (repeat ".." (k + j)).
Proof.
  revert j. induction k as [|k IH]; intros j; simpl; [done|].
  destruct j as [|j]; simpl.
  - specialize (IH 1%nat). simpl in IH. rewrite IH.
    by replace (k + 1)%nat with (S (k + 0)) by lia.
  - specialize (IH (S (S j))). simpl in IH. rewrite IH.
    by replace (k + S (S j))%nat with (S (k + S j)) by lia.
Qed.

Lemma rev_repeat {A} (x : A) k : rev (repeat x k) = repeat x k.
Proof.
  induction k as [|k IH]; simpl; [done|]. by rewrite IH, repeat_snoc.
Qed.

(** The loop changes nothing in a list that is already normal. *)
Lemma cleanLoop_normal r elems : normal r elems → cleanLoop r elems [] = elems.
Proof.
  intros (k & names & -> & Hn & Hr). destruct r.
  - rewrite (Hr eq_refl). simpl. by rewrite cleanLoop_names.
  - change (@nil string) with (repeat ".." 0) at 1.
    rewrite cleanLoop_dots, cleanLoop_names by done.
    by rewrite rev_repeat, Nat.add_0_r.
Qed.

(** The loop keeps its output normal. *)
Lemma cleanLoop_is_normal r elems out :
  Forall (λ e, noSeparator e = true) elems →
  normal r (rev out) → normal r (cleanLoop r elems out).
Proof.
  intros Hall. revert out. induction Hall as [|e elems He _ IH]; intros out Hout; simpl.
  { done. }
  destruct (String.eqb e "") eqn:E1; [by apply IH|].
  destruct (String.eqb e ".") eqn:E2; [by apply IH|].
  destruct (String.eqb e "..") eqn:E3.
  - apply String.eqb_eq in E3 as ->.
    destruct out as [|last out].
    + destruct r; apply IH; [apply normal_nil|].
      exists 1%nat, []. by split_and!.
    + destruct (String.eqb last "..") eqn:E4.
      * apply String.eqb_eq in E4 as ->. apply IH.
        destruct Hout as (k & names & Heq & Hn & Hr). simpl in Heq.
        destruct names as [|n names _] using rev_ind.
        -- rewrite app_nil_r in Heq. exists (S k), []. split_and!.
           ++ simpl. rewrite Heq, app_nil_r. apply repeat_snoc.
           ++ done.
           ++ intros Hr'. specialize (Hr Hr'). subst k. simpl in Heq.
              by destruct (rev out).
        -- rewrite app_assoc in Heq. apply app_inj_tail in Heq as [_ <-].
           apply Forall_app in Hn as [_ Hn]. inversion_clear Hn as [|?? Hn' _].
           by apply isName_spec in Hn' as (_ & _ & ? & _).
      * apply IH. destruct Hout as (k & names & Heq & Hn & Hr). simpl in Heq.
        destruct names as [|n names _] using rev_ind.
        -- rewrite app_nil_r in Heq. destruct k as [|k]; simpl in Heq.
           ++ by destruct (rev out).
           ++ rewrite <- (repeat_snoc ".." k) in Heq. apply app_inj_tail in Heq as [_ ->].
              by rewrite String.eqb_refl in E4.
        -- rewrite app_assoc in Heq. apply app_inj_tail in Heq as [Heq _].
           apply Forall_app in Hn as [Hn _]. by exists k, names.
  - apply IH. simpl. apply normal_app; [done|]. constructor; [|done].
    apply isName_spec. by rewrite <- !String.eqb_neq.
Qed.

Lemma cleanElems_normal path : normal (rooted path) (cleanElems path).
Proof.
  apply cleanLoop_is_normal; [apply split_Forall_noSeparator | apply normal_nil].
Qed.

(** ** [Clean], [Join] and [Rel] on the paths of a walk *)

Lemma Clean_render path : Clean path = render (rooted path) (cleanElems path).
Proof. unfold Clean. destruct (String.eqb_spec path ""); [by subst|done]. Qed.

Lemma append_empty_r s : s +:+ "" = s.
Proof.
  induction s as [|c s IH]; [done|].
  change (String c (s +:+ "") = String c s). by rewrite IH.
Qed.

Lemma normal_head r e elems : normal r (e :: elems) → e ≠ "" ∧ noSeparator e = true.
Proof.
  intros Hn. split; [by eapply normal_head_nonempty|].
  apply normal_noSeparator in Hn. by inversion_clear Hn.
Qed.

Lemma join_head e elems : ∃ rest, join (e :: elems) = e +:+ rest.
Proof.
  destruct elems as [|e' elems].
  - exists "". by rewrite append_empty_r.
  - eexists. by apply join_cons.
Qed.

Lemma rooted_render r elems : normal r elems → rooted (render r elems) = r.
Proof.
  intros Hn. destruct r; [done|]. simpl. destruct elems as [|e elems]; [done|].
  apply normal_head in Hn as [Hne Hsep].
  destruct (join_head e elems) as [rest ->]. by apply rooted_noSeparator.
Qed.

Lemma split_render r elems :
  normal r elems →
  cleanLoop r (split (render r elems)) [] = elems.
Proof.
  intros Hn. pose proof (normal_noSeparator _ _ Hn) as Hsep.
  destruct r; unfold render.
  - change (split ("/" +:+ join elems)) with ("" :: split (join elems)).
    change (cleanLoop true (split (join elems)) [] = elems).
    destruct elems as [|e elems]; [done|].
    rewrite split_join by done. by apply cleanLoop_normal.
  - destruct elems as [|e elems]; [done|].
    rewrite split_join by done. by apply cleanLoop_normal.
Qed.

Lemma cleanElems_render r elems :
  normal r elems → cleanElems (render r elems) = elems.
Proof.
  intros Hn. unfold cleanElems. rewrite rooted_render by done. by apply split_render.
Qed.

Lemma Clean_normal r elems : normal r elems → Clean (render r elems) = render r elems.
Proof.
  intros Hn. by rewrite Clean_render, rooted_render, cleanElems_render.
Qed.

Lemma Join_two a b :
  Join [a; b]
  = if String.eqb a "" then (if String.eqb b "" then "" else Clean b)
    else Clean (a +:+ String "/" b).
Proof. reflexivity. Qed.

(** One step down: joining a name to a path adds the name to its elements. *)
Lemma Join_name path n :
  isName n = true →
  Join [path; n] = render (rooted path) (cleanElems path ++ [n]).
Proof.
  intros Hn. pose proof Hn as (Hne & _ & _ & Hsep)%isName_spec.
  assert (Forall (λ n, isName n = true) [n]) as Hns by (by constructor).
  rewrite Join_two. destruct (String.eqb_spec path "") as [->|Hpath].
  - apply String.eqb_neq in Hne as Hne'. rewrite Hne'.
    assert (rooted n = false) as Hr.
    { rewrite <- (append_empty_r n). by apply rooted_noSeparator. }
    rewrite Clean_render. unfold cleanElems at 1. rewrite Hr.
    rewrite split_noSeparator by done. rewrite cleanLoop_names by done.
    reflexivity.
  - rewrite Clean_render. unfold cleanElems.
    rewrite rooted_app by done. rewrite split_app, (split_noSeparator n) by done.
    by rewrite cleanLoop_app_names.
Qed.

Lemma relLoop_prefix common rest : relLoop common (common ++ rest) = Some rest.
Proof.
  induction common as [|e common IH]; simpl; [by destruct rest|].
  by rewrite String.eqb_refl.
Qed.

Lemma render_inj r a b : normal r a → normal r b → render r a = render r b → a = b.
Proof.
  intros Ha Hb Heq. rewrite <- (cleanElems_render r a), <- (cleanElems_render r b) by done.
  by rewrite Heq.
Qed.

Lemma join_names_nonempty ns :
  ns ≠ [] → Forall (λ n, isName n = true) ns → join ns ≠ "".
Proof.
  destruct ns as [|n ns]; [done|]. intros _ Hns. inversion_clear Hns as [|?? Hn _].
  apply isName_spec in Hn as (Hne & _). destruct (join_head n ns) as [rest ->].
  by destruct n.
Qed.

Lemma join_normal_nonempty r e l : normal r (e :: l) → join (e :: l) ≠ "".
Proof.
  intros [He _]%normal_head. destruct (join_head e l) as [rest ->]. by destruct e.
Qed.

Lemma relElems_render r elems :
  normal r elems → elems ≠ [] →
  relElems (render r elems) = if r then "" :: elems else elems.
Proof.
  intros Hn Hne. destruct elems as [|e l]; [done|].
  pose proof (join_normal_nonempty _ _ _ Hn) as Hj.
  pose proof (normal_noSeparator _ _ Hn) as Hsep.
  assert (render r (e :: l) ≠ "" ∧ render r (e :: l) ≠ "/") as [H1 H2].
  { destruct r; unfold render.
    - split; [done|]. intros [= Heq]. done.
    - split; [done|]. intros Heq.
      pose proof (rooted_render false (e :: l) Hn) as Hr. unfold render in Hr.
      by rewrite Heq in Hr. }
  unfold relElems. apply String.eqb_neq in H1, H2. rewrite H1, H2.
  destruct r; unfold render.
  - change (split ("/" +:+ join (e :: l))) with ("" :: split (join (e :: l))).
    by rewrite split_join.
  - by rewrite split_join.
Qed.

(** The path of an entry below [root], relative to [root], is the names
    that lead to it. *)
Lemma Rel_below root ns :
  ns ≠ [] → Forall (λ n, isName n = true) ns →
  Rel root (render (rooted root) (cleanElems root ++ ns)) = inr (join ns).
Proof.
  intros Hne Hns.
  set (r := rooted root). set (E := cleanElems root).
  assert (normal r E) as HE by apply cleanElems_normal.
  assert (normal r (E ++ ns)) as HT by (by apply normal_app).
  assert (E ++ ns ≠ []) as HneT by (by destruct E, ns).
  unfold Rel. rewrite (Clean_render root), Clean_normal by done. fold r E.
  destruct (String.eqb_spec (render r (E ++ ns)) (render r E)) as [Heq|_].
  { apply render_inj in Heq; [|done..]. rewrite <- (app_nil_r E) in Heq at 2.
    by apply app_inv_head in Heq. }
  rewrite (relElems_render r (E ++ ns)) by done.
  destruct (String.eqb_spec (render r E) ".") as [Hdot|Hdot].
  - assert (r = false) as Hr.
    { by rewrite <- (rooted_render r E HE), Hdot. }
    assert (E = []) as HnilE.
    { rewrite Hr in *. by apply (render_inj false); [|apply normal_nil|]. }
    rewrite Hr, HnilE in *. rewrite rooted_render by done. by destruct ns.
  - rewrite !rooted_render by done. rewrite Bool.eqb_reflx.
    destruct E as [|e E'].
    + destruct r; [|done]. by destruct ns.
    + rewrite (relElems_render r (e :: E')) by done. destruct r.
      * change ("" :: (e :: E') ++ ns) with (("" :: e :: E') ++ ns).
        by rewrite relLoop_prefix.
      * by rewrite relLoop_prefix.
Qed.

Lemma Rel_same root : Rel root root = inr ".".
Proof. unfold Rel. by rewrite String.eqb_refl. Qed.

Lemma join_names_not_dot ns :
  ns ≠ [] → Forall (λ n, isName n = true) ns → String.eqb (join ns) "." = false.
Proof.
  intros Hne Hns. apply String.eqb_neq. intros Heq.
  assert (split (join ns) = ns) as Hs.
  { apply split_join; [done|]. eapply Forall_impl; [done|]. apply isName_noSeparator. }
  rewrite Heq in Hs. simpl in Hs. subst ns. inversion_clear Hns as [|?? Hn _].
  by apply isName_spec in Hn as (_ & ? & _).
Qed.

(** ** The walk *)

Lemma node_ind (P : node → Prop) :
  (∀ e, P (NoInfo e)) →
  (∀ contents, P (File contents)) →
  (∀ op e, P (Unreadable op e)) →
  (∀ op e, P (DirErr op e)) →
  (∀ entries, Forall (λ kv, P (snd kv)) entries → P (Dir entries)) →
  ∀ t, P t.
Proof.
  intros HN HF HU HE HD.
  fix IH 1. intros [e|contents|op e|op e|entries]; [by auto..|].
  apply HD. induction entries as [|[name child] entries IHentries]; constructor; [|done].
  apply IH.
Qed.

Lemma pathAt_step root names n :
  Forall (λ n, isName n = true) names → isName n = true →
  Join [pathAt root names; n] = pathAt root (names ++ [n]).
Proof.
  intros Hns Hn. rewrite Join_name by done.
  assert (pathAt root (names ++ [n])
          = render (rooted root) (cleanElems root ++ names ++ [n])) as ->.
  { unfold pathAt. by destruct names. }
  destruct names as [|m names]; [done|]. unfold pathAt.
  assert (normal (rooted root) (cleanElems root ++ m :: names)) as Hnormal.
  { apply normal_app; [apply cleanElems_normal | done]. }
  rewrite rooted_render, cleanElems_render by done. by rewrite <- app_assoc.
Qed.

Lemma walkPath_pathAt root names :
  Forall (λ n, isName n = true) names → walkPath root names = pathAt root names.
Proof.
  induction names as [|n names IH] using rev_ind; intros Hns; [done|].
  apply Forall_app in Hns as [Hns Hn]. inversion_clear Hn as [|?? Hn' _].
  unfold walkPath in *. rewrite fold_left_app. cbn [fold_left].
  rewrite IH by done. by apply pathAt_step.
Qed.

Lemma Rel_walkPath root names :
  names ≠ [] → Forall (λ n, isName n = true) names →
  Rel root (walkPath root names) = inr (join names).
Proof.
  intros Hne Hns. rewrite walkPath_pathAt by done.
  destruct names as [|n names]; [done|]. by apply Rel_below.
Qed.

Lemma hashFile_error root path info e s :
  hashFile root path info (Some e) s = (s, Some e).
Proof. reflexivity. Qed.

Lemma hashFile_Dir root path entries s :
  hashFile root path (Some (Dir entries)) None s = (s, None).
Proof. reflexivity. Qed.

Lemma hashFile_File root names contents s :
  Forall (λ n, isName n = true) names →
  hashFile root (pathAt root names) (Some (File contents)) None s
  = (s ++ [subjectOf root (names, contents)], None).
Proof.
  intros Hns. unfold hashFile, subjectOf. cbn [IsDir ReadFile fst snd].
  destruct names as [|n names].
  - cbn [pathAt]. by rewrite Rel_same, String.eqb_refl.
  - unfold pathAt. rewrite Rel_below by done. by rewrite join_names_not_dot.
Qed.

Lemma readable_Dir entries :
  readable (Dir entries) = true ↔ Forall (λ kv, readable (snd kv) = true) entries.
Proof.
  simpl. induction entries as [|kv entries IH]; simpl; [done|].
  rewrite andb_true_iff, Forall_cons. by rewrite IH.
Qed.

Lemma namesListed_Dir entries :
  namesListed (Dir entries) = true
  ↔ Forall (λ kv, isName (fst kv) = true ∧ namesListed (snd kv) = true) entries.
Proof.
  simpl. induction entries as [|kv entries IH]; simpl; [done|].
  rewrite !andb_true_iff, Forall_cons. by rewrite IH.
Qed.

(** The walk of a tree that can be read records the regular files of the
    tree, in order, and no error. *)
Lemma walk_readable root t :
  ∀ names s,
    readable t = true → namesListed t = true →
    Forall (λ n, isName n = true) names →
    walk (hashFile root) (pathAt root names) t s
    = (s ++ map (λ f, subjectOf root (names ++ fst f, snd f)) (regularFiles t), None).
Proof.
  induction t as [e|contents|op e|op e|entries IH] using node_ind;
    intros names s Hread Hlisted Hnames; try done.
  - cbn [walk regularFiles map fst snd]. rewrite app_nil_r. by apply hashFile_File.
  - apply readable_Dir in Hread. apply namesListed_Dir in Hlisted.
    cbn [walk]. rewrite hashFile_Dir. cbn [regularFiles].
    revert s. induction entries as [|[name child] entries IHentries]; intros s.
    + cbn. by rewrite app_nil_r.
    + inversion_clear IH as [|?? IHchild IHrest].
      inversion_clear Hread as [|?? Hchild Hrest].
      inversion_clear Hlisted as [|?? [Hname Hlchild] Hlrest].
      cbn [fst snd] in *.
      specialize (IHentries IHrest Hrest Hlrest).
      assert (walk (hashFile root) (Join [pathAt root names; name]) child s
              = (s ++ map (λ f, subjectOf root ((names ++ [name]) ++ fst f, snd f))
                          (regularFiles child), None)) as Hwalk.
      { rewrite pathAt_step by done. apply IHchild; [done..|].
        apply Forall_app. split; [done|]. by constructor. }
      cbn [flat_map fst snd]. rewrite map_app, map_map, app_assoc.
      assert (map (λ f, subjectOf root ((names ++ [name]) ++ fst f, snd f))
                  (regularFiles child)
              = map (λ x : list string * list byte,
                       subjectOf root (names ++ (name :: x.1, x.2).1, (name :: x.1, x.2).2))
                    (regularFiles child)) as Heq.
      { apply map_ext. intros f. cbn [fst snd]. by rewrite <- app_assoc. }
      rewrite <- Heq.
      destruct child as [e|contents|op e|op e|sub]; try done;
        rewrite Hwalk; apply IHentries.
Qed.

(** ** The files of a tree *)

Lemma regularFiles_Dir_cons name child entries :
  regularFiles (Dir ((name, child) :: entries))
  = map (λ f, (name :: fst f, snd f)) (regularFiles child) ++ regularFiles (Dir entries).
Proof. reflexivity. Qed.

Lemma regularFiles_Dir_paths entries :
  Forall (λ f, fst f ≠ []) (regularFiles (Dir entries)).
Proof.
  induction entries as [|[name child] entries IH]; [constructor|].
  rewrite regularFiles_Dir_cons. apply Forall_app. split; [|done].
  apply Forall_forall. intros f (g & -> & _)%list_elem_of_fmap. done.
Qed.

Lemma regularFiles_names t :
  namesListed t = true →
  Forall (λ f, Forall (λ n, isName n = true) (fst f)) (regularFiles t).
Proof.
  induction t as [e|contents|op e|op e|entries IH] using node_ind; intros Hl;
    try by constructor.
  apply namesListed_Dir in Hl.
  induction entries as [|[name child] entries IHentries]; [constructor|].
  inversion_clear IH as [|?? IHchild IHrest].
  inversion_clear Hl as [|?? [Hname Hchild] Hrest]. cbn [fst snd] in *.
  rewrite regularFiles_Dir_cons. apply Forall_app. split; [|by apply IHentries].
  apply Forall_forall. intros f (g & -> & Hg)%list_elem_of_fmap. cbn [fst].
  constructor; [done|]. specialize (IHchild Hchild).
  by eapply Forall_forall in IHchild.
Qed.

Lemma namesDistinct_Dir entries :
  namesDistinct (Dir entries) = true
  ↔ NoDup (map fst entries) ∧ Forall (λ kv, namesDistinct (snd kv) = true) entries.
Proof.
  cbn [namesDistinct]. rewrite andb_true_iff, bool_decide_eq_true.
  apply and_iff_compat_l.
  induction entries as [|kv entries IH]; simpl; [done|].
  rewrite andb_true_iff, Forall_cons. by rewrite IH.
Qed.

Lemma regularFiles_head entries f :
  f ∈ regularFiles (Dir entries) → ∃ n rest, fst f = n :: rest ∧ n ∈ map fst entries.
Proof.
  induction entries as [|[name child] entries IH]; [by intros ?%elem_of_nil|].
  rewrite regularFiles_Dir_cons. intros [(g & -> & _)%list_elem_of_fmap|Hin]%elem_of_app.
  - exists name, (fst g). split; [done|]. simpl. by left.
  - destruct (IH Hin) as (n & rest & ? & ?). exists n, rest. split; [done|].
    simpl. by right.
Qed.

Lemma regularFiles_NoDup t :
  namesDistinct t = true → NoDup (map fst (regularFiles t)).
Proof.
  induction t as [e|contents|op e|op e|entries IH] using node_ind; intros Hd;
    try by constructor.
  - simpl. apply NoDup_singleton.
  - apply namesDistinct_Dir in Hd as [Hnd Hd].
    induction entries as [|[name child] entries IHentries]; [constructor|].
    inversion_clear IH as [|?? IHchild IHrest].
    inversion_clear Hd as [|?? Hchild Hrest]. cbn [fst snd map] in *.
    apply NoDup_cons in Hnd as [Hfresh Hnd].
    rewrite regularFiles_Dir_cons, map_app. apply NoDup_app. split_and!.
    + rewrite map_map. cbn [fst].
      rewrite <- (map_map fst (cons name)). apply (NoDup_fmap_2 (cons name)).
      by apply IHchild.
    + intros p Hp Hq. rewrite map_map in Hp. cbn [fst] in Hp.
      apply list_elem_of_fmap in Hp as (g & -> & _).
      apply list_elem_of_fmap in Hq as (f & Hf & Hin).
      apply regularFiles_head in Hin as (n & rest & Hfst & Hn).
      rewrite Hfst in Hf. injection Hf as -> _. done.
    + by apply IHentries.
Qed.

Lemma join_names_inj a b :
  a ≠ [] → b ≠ [] →
  Forall (λ n, isName n = true) a → Forall (λ n, isName n = true) b →
  join a = join b → a = b.
Proof.
  intros Ha Hb Hna Hnb Heq.
  assert (∀ l, Forall (λ n, isName n = true) l → Forall (λ e, noSeparator e = true) l)
    as Hsep.
  { intros l Hl. eapply Forall_impl; [done|]. apply isName_noSeparator. }
  rewrite <- (split_join a), <- (split_join b) by auto. by rewrite Heq.
Qed.

(** ** The scan *)

Lemma subjects_found fsys root t :
  fsys !! root = Some t → readable t = true → namesListed t = true →
  subjects fsys root = (map (subjectOf root) (regularFiles t), None).
Proof.
  intros Hroot Hread Hl. unfold subjects, Walk. rewrite Hroot.
  change root with (pathAt root []) at 2.
  by rewrite walk_readable.
Qed.


(** ** The scan of a file and of a directory *)

(** C1.  Scanning an existing regular file with contents [C] returns exactly
    one subject, named by the base name of the path, whose digest is the
    mapping of [sha256] to the lowercase hexadecimal SHA-256 of [C]; the
    scan returns no error. *)
Theorem subjects_single_file (fsys : gmap string node) (root : string)
    (contents : list byte) :
  fsys !! root = Some (File contents) →
  subjects fsys root
  = ([ {| Subject.Name := Base root;
          Subject.Digest :=
            {[ "sha256" := hex.EncodeToString (sha256.Sum256 contents) ]} |} ],
     None).
Proof. intros Hroot. by rewrite (subjects_found _ _ _ Hroot). Qed.

Lemma subjects_single_file_witness :
  subjects outputs "build/app.bin"
  = ([ {| Subject.Name := Base "build/app.bin";
          Subject.Digest :=
            {[ "sha256" := hex.EncodeToString (sha256.Sum256 (bytes "abc")) ]} |} ],
     None).
Proof. apply (subjects_single_file outputs "build/app.bin" (bytes "abc")). reflexivity. Defined.

(** The subject of [build/app.bin], evaluated: the name is [app.bin] and the
    digest is the SHA-256 of ["abc"]. *)
Example subjects_app_bin :
  subjects outputs "build/app.bin"
  = ([ {| Subject.Name := "app.bin";
          Subject.Digest :=
            {[ "sha256" :=
                 "ba7816bf8f01cfea414140de5dae2223b00361a396177a9cb410ff61f20015ad" ]} |} ],
     None).
Proof. vm_compute. reflexivity. Qed.

(** C2.  Scanning an existing directory whose entries can all be read
    returns exactly one subject per regular file below it, in the order of
    the walk, each carrying the SHA-256 of its contents and named by the
    names that lead to the file from the root, joined by separators: that
    is the path of the file relative to the root, as [filepath.Rel] gives
    it for the path the walk has built.  Directories add nothing; an empty
    directory gives the empty list and no error. *)
Theorem subjects_directory (fsys : gmap string node) (root : string)
    (entries : list (string * node)) :
  fsys !! root = Some (Dir entries) →
  readable (Dir entries) = true →
  namesListed (Dir entries) = true →
  subjects fsys root
  = (map (λ f, {| Subject.Name := join (fst f);
                  Subject.Digest :=
                    {[ "sha256" := hex.EncodeToString (sha256.Sum256 (snd f)) ]} |})
         (regularFiles (Dir entries)),
     None)
  ∧ Forall (λ f, Rel root (walkPath root (fst f)) = inr (join (fst f)))
           (regularFiles (Dir entries))
  ∧ (entries = [] → subjects fsys root = ([], None)).
Proof.
  intros Hroot Hread Hl.
  rewrite (subjects_found _ _ _ Hroot) by done. split_and!.
  - f_equal. apply map_ext_Forall.
    eapply Forall_impl; [apply regularFiles_Dir_paths|].
    intros [names contents] Hne. unfold subjectOf. cbn [fst snd] in *.
    by destruct names.
  - pose proof (regularFiles_names _ Hl) as Hnames.
    pose proof (regularFiles_Dir_paths entries) as Hpaths.
    rewrite Forall_forall in Hnames, Hpaths. apply Forall_forall.
    intros f Hf. apply Rel_walkPath; auto.
  - by intros ->.
Qed.

Lemma subjects_directory_witness :
  subjects outputs "dist"
  = (map (λ f, {| Subject.Name := join (fst f);
                  Subject.Digest :=
                    {[ "sha256" := hex.EncodeToString (sha256.Sum256 (snd f)) ]} |})
         (regularFiles (Dir distEntries)),
     None)
  ∧ Forall (λ f, Rel "dist" (walkPath "dist" (fst f)) = inr (join (fst f)))
           (regularFiles (Dir distEntries))
  ∧ (distEntries = [] → subjects outputs "dist" = ([], None)).
Proof. apply (subjects_directory outputs "dist" distEntries); reflexivity. Defined.

(** The subjects of [dist], evaluated: [a.txt] and [sub/b.txt]. *)
Example subjects_dist :
  subjects outputs "dist"
  = ([ {| Subject.Name := "a.txt";
          Subject.Digest :=
            {[ "sha256" :=
                 "2cf24dba5fb0a30e26e83b2ac5b9e29e1b161e5c1fa7425e73043362938b9824" ]} |};
       {| Subject.Name := "sub/b.txt";
          Subject.Digest :=
            {[ "sha256" :=
                 "ba7816bf8f01cfea414140de5dae2223b00361a396177a9cb410ff61f20015ad" ]} |} ],
     None).
Proof. vm_compute. reflexivity. Qed.

(** The names do not depend on how the root is written. *)
Example subjects_dist_names :
  map (λ root, map Subject.Name (fst (subjects {[ root := Dir distEntries ]} root)))
      [ "dist"; "./dist/"; "/srv/out//dist"; "../dist"; "."; "/" ]
  = repeat [ "a.txt"; "sub/b.txt" ] 6.
Proof. vm_compute. reflexivity. Qed.

(** A file that cannot be read stops the walk with its error; [Exec] then
    keeps none of the subjects found before it. *)
Example subjects_locked :
  subjects locked "dist"
  = ([ {| Subject.Name := "a.txt";
          Subject.Digest :=
            {[ "sha256" :=
                 "2cf24dba5fb0a30e26e83b2ac5b9e29e1b161e5c1fa7425e73043362938b9824" ]} |} ],
     Some (PathError "open" "dist/key.pem" EACCES))
  ∧ collectSubjects locked "dist" = inl (PathError "open" "dist/key.pem" EACCES).
Proof. split; vm_compute; reflexivity. Qed.

(** The walk of a path on which [os.Lstat] fails is one call of the
    function, with the error. *)
Lemma subjects_lstat_fails fsys p e :
  lstatErrno fsys p = Some e → subjects fsys p = ([], Some (PathError "lstat" p e)).
Proof.
  unfold lstatErrno, subjects, Walk.
  destruct (fsys !! p) as [[]|]; try done; by intros [= ->].
Qed.

(** C6, amended.  Scanning a path on which [os.Lstat] fails, fails, with
    no subjects.  When the failure is that nothing exists at the path
    (ENOENT), the scan of [Exec] replaces the error of the walk by the error
    whose message is [resource path not found: [provided=p]], with [p] as it
    was given.  When [os.Lstat] fails otherwise (the path goes through a
    regular file, a directory on the way may not be searched), the scan
    returns the error of [os.Lstat] as it is, which names [p] and the
    reason. *)
Theorem collectSubjects_unresolved (fsys : gmap string node) (p : string) (e : Errno) :
  lstatErrno fsys p = Some e →
  subjects fsys p = ([], Some (PathError "lstat" p e))
  ∧ (e = ENOENT →
     collectSubjects fsys p
     = inl (errorString ("resource path not found: [provided=" +:+ p +:+ "]"))
     ∧ ∀ err, collectSubjects fsys p = inl err →
              Error err = "resource path not found: [provided=" +:+ p +:+ "]")
  ∧ (e ≠ ENOENT →
     collectSubjects fsys p = inl (PathError "lstat" p e)
     ∧ ∀ err, collectSubjects fsys p = inl err →
              Error err = "lstat " +:+ p +:+ ": " +:+ strerror e).
Proof.
  intros Hp.
  assert (subjects fsys p = ([], Some (PathError "lstat" p e))) as Hs
    by (by apply subjects_lstat_fails).
  unfold collectSubjects. rewrite Hs. split_and!; [done| |].
  - intros ->. split; [done|]. by intros err [= <-].
  - intros He. destruct e; try done; (split; [done|]); by intros err [= <-].
Qed.

Lemma collectSubjects_unresolved_witness :
  subjects outputs "./no such dir/" = ([], Some (PathError "lstat" "./no such dir/" ENOENT))
  ∧ (ENOENT = ENOENT →
     collectSubjects outputs "./no such dir/"
     = inl (errorString ("resource path not found: [provided=" +:+ "./no such dir/" +:+ "]"))
     ∧ ∀ err, collectSubjects outputs "./no such dir/" = inl err →
              Error err = "resource path not found: [provided=" +:+ "./no such dir/" +:+ "]")
  ∧ (ENOENT ≠ ENOENT →
     collectSubjects outputs "./no such dir/" = inl (PathError "lstat" "./no such dir/" ENOENT)
     ∧ ∀ err, collectSubjects outputs "./no such dir/" = inl err →
              Error err = "lstat " +:+ "./no such dir/" +:+ ": " +:+ strerror ENOENT).
Proof. apply (collectSubjects_unresolved outputs "./no such dir/" ENOENT). reflexivity. Defined.

(** C6, as the specification states it, fails: the path [build/app.bin/sig]
    does not resolve to an entry, [build/app.bin] being a regular file, and
    the scan fails with the error of [os.Lstat], [not a directory], not with
    [resource path not found]. *)
Lemma collectSubjects_not_a_directory :
  lstatErrno belowFile "build/app.bin/sig" = Some ENOTDIR
  ∧ collectSubjects belowFile "build/app.bin/sig"
    = inl (PathError "lstat" "build/app.bin/sig" ENOTDIR)
  ∧ Error (PathError "lstat" "build/app.bin/sig" ENOTDIR)
    = "lstat build/app.bin/sig: not a directory"
  ∧ ¬ (∀ fsys p e,
         lstatErrno fsys p = Some e →
         collectSubjects fsys p
         = inl (errorString ("resource path not found: [provided=" +:+ p +:+ "]"))).
Proof.
  split_and!; [reflexivity..|]. intros Hall.
  specialize (Hall belowFile "build/app.bin/sig" ENOTDIR eq_refl). discriminate Hall.
Qed.

(** X1.  With its four flags given and an artifact path on which
    [os.Lstat] fails, [Exec] prints and writes nothing and returns an error:
    [resource path not found] with the path as given when nothing exists at
    the path (ENOENT), and otherwise the error of [os.Lstat] as it is (a
    path that goes through a regular file gives [not a directory]). *)
Lemma Exec_unresolved (codec : Codec) (w : World) (flags : Flags) (e : Errno) :
  artifactPath flags ≠ "" → outputPath flags ≠ "" →
  githubContext flags ≠ "" → runnerContext flags ≠ "" →
  lstatErrno (fsys w) (artifactPath flags) = Some e →
  Exec codec w flags
  = ([], Some match e with
              | ENOENT => errorString ("resource path not found: [provided="
                                       +:+ artifactPath flags +:+ "]")
              | _ => PathError "lstat" (artifactPath flags) e
              end).
Proof.
  intros H1 H2 H3 H4 Hp. unfold Exec.
  apply String.eqb_neq in H1, H2, H3, H4. rewrite H1, H2, H3, H4.
  unfold collectSubjects. rewrite (subjects_lstat_fails _ _ _ Hp). by destruct e.
Qed.

(** C9.  The subjects of a directory scan come in the order of the walk
    (the regular files of the directory, each directory's entries in order
    and each entry before the next one's), no two with the same name as no
    directory lists a name twice; the list is not sorted afterwards: there
    is a directory, its names listed in ascending order, whose subjects are
    not in ascending order of name. *)
Theorem subjects_in_walk_order (fsys : gmap string node) (root : string)
    (entries : list (string * node)) :
  fsys !! root = Some (Dir entries) →
  readable (Dir entries) = true →
  namesListed (Dir entries) = true →
  namesDistinct (Dir entries) = true →
  map Subject.Name (fst (subjects fsys root))
  = map (λ f, join (fst f)) (regularFiles (Dir entries))
  ∧ NoDup (map Subject.Name (fst (subjects fsys root)))
  ∧ (namesAscending (Dir mixedEntries) = true
     ∧ map Subject.Name (fst (subjects mixed "dist")) = [ "a/x"; "a.txt" ]
     ∧ ascending [ "a/x"; "a.txt" ] = false).
Proof.
  intros Hroot Hread Hl Hd.
  rewrite (subjects_found _ _ _ Hroot) by done. cbn [fst].
  assert (map Subject.Name (map (subjectOf root) (regularFiles (Dir entries)))
          = map (λ f, join (fst f)) (regularFiles (Dir entries))) as ->.
  { rewrite map_map. apply map_ext_Forall.
    eapply Forall_impl; [apply regularFiles_Dir_paths|].
    intros [names contents] Hne. cbn [fst snd subjectOf Subject.Name] in *.
    by destruct names. }
  split_and!; [done| |by vm_compute..].
  rewrite <- (map_map fst join).
  apply NoDup_fmap_2_strong; [|by apply regularFiles_NoDup].
  intros a b Ha Hb.
  pose proof (regularFiles_names _ Hl) as Hnames.
  pose proof (regularFiles_Dir_paths entries) as Hpaths.
  apply list_elem_of_fmap in Ha as (f & -> & Hf).
  apply list_elem_of_fmap in Hb as (g & -> & Hg).
  rewrite Forall_forall in Hnames, Hpaths.
  apply join_names_inj; auto.
Qed.

Lemma subjects_in_walk_order_witness :
  map Subject.Name (fst (subjects outputs "dist"))
  = map (λ f, join (fst f)) (regularFiles (Dir distEntries))
  ∧ NoDup (map Subject.Name (fst (subjects outputs "dist")))
  ∧ (namesAscending (Dir mixedEntries) = true
     ∧ map Subject.Name (fst (subjects mixed "dist")) = [ "a/x"; "a.txt" ]
     ∧ ascending [ "a/x"; "a.txt" ] = false).
Proof. apply (subjects_in_walk_order outputs "dist" distEntries); reflexivity. Defined.

(** ** The builder identity *)

Lemma string_app_assoc (a b c : string) : (a +:+ b) +:+ c = a +:+ b +:+ c.
Proof.
  induction a as [|x a IH]; [done|].
  change (String x ((a +:+ b) +:+ c) = String x (a +:+ b +:+ c)). by rewrite IH.
Qed.

Lemma string_app_inv_head (a b c : string) : a +:+ b = a +:+ c → b = c.
Proof.
  induction a as [|x a IH]; [done|]. intros Heq.
  change (String x (a +:+ b) = String x (a +:+ c)) in Heq. injection Heq as Heq. auto.
Qed.

Lemma Getenv_true environ key :
  Getenv environ key = "true" ↔ environ !! key = Some "true".
Proof. unfold Getenv. destruct (environ !! key); simpl; naive_solver. Qed.

Lemma builderID_hosted environ repoURI :
  builderID environ repoURI
  = repoURI +:+ (if hosted environ then gitHubHostedIDSuffix else selfHostedIDSuffix).
Proof.
  unfold builderID, hosted.
  destruct (String.eqb_spec (Getenv environ "GITHUB_ACTIONS") "true") as [Heq|Hne].
  - apply Getenv_true in Heq. by rewrite bool_decide_eq_true_2.
  - rewrite Getenv_true in Hne. by rewrite bool_decide_eq_false_2.
Qed.


Example builder_identity_org_repo :
  builderID (environ hostedWorld) ("https://github.com/" +:+ "org/repo")
  = "https://github.com/org/repo/Attestations/GitHubHostedActions@v1"
  ∧ builderID (environ selfHostedWorld) ("https://github.com/" +:+ "org/repo")
    = "https://github.com/org/repo/Attestations/SelfHostedActions@v1".
Proof. split; reflexivity. Qed.

(** C10.  The builder identity carries the hosted suffix exactly when the
    variable GITHUB_ACTIONS is set to the string [true], and the self-hosted
    suffix exactly when it is not: so for [TRUE], for [1], for the empty
    value and for the variable not being set. *)
Theorem builder_identity_exact (environ : gmap string string) (repoURI : string) :
  (builderID environ repoURI = repoURI +:+ gitHubHostedIDSuffix
   ↔ environ !! "GITHUB_ACTIONS" = Some "true")
  ∧ (builderID environ repoURI = repoURI +:+ selfHostedIDSuffix
     ↔ environ !! "GITHUB_ACTIONS" ≠ Some "true")
  ∧ builderID {[ "GITHUB_ACTIONS" := "TRUE" ]} repoURI = repoURI +:+ selfHostedIDSuffix
  ∧ builderID {[ "GITHUB_ACTIONS" := "1" ]} repoURI = repoURI +:+ selfHostedIDSuffix
  ∧ builderID {[ "GITHUB_ACTIONS" := "" ]} repoURI = repoURI +:+ selfHostedIDSuffix
  ∧ builderID ∅ repoURI = repoURI +:+ selfHostedIDSuffix.
Proof.
  split_and!; try reflexivity.
  - rewrite builderID_hosted. unfold hosted. case_bool_decide as H; split; try done.
    intros Heq%string_app_inv_head. done.
  - rewrite builderID_hosted. unfold hosted. case_bool_decide as H; split; try done.
    intros Heq%string_app_inv_head. done.
Qed.

(** ** The statement *)

Lemma completeStatement_spec stmt repoURI gh :
  completeStatement stmt repoURI gh
  = match unmarshalEvent (Event gh) with
    | inl err => inl (Wrap err "failed to unmarshal github context event json")
    | inr event =>
        inr {| Statement.Type_ := Statement.Type_ stmt;
               Statement.PredicateType := Statement.PredicateType stmt;
               Statement.Subject := Statement.Subject stmt;
               Statement.Predicate :=
                 {| Predicate.Builder := Predicate.Builder (Statement.Predicate stmt);
                    Predicate.Recipe :=
                      {| Recipe.Type_ := typeID;
                         Recipe.DefinedInMaterial := 0;
                         Recipe.EntryPoint := Workflow gh;
                         Recipe.Arguments := Inputs event |};
                    Predicate.Metadata := Predicate.Metadata (Statement.Predicate stmt);
                    Predicate.Materials :=
                      [ {| Item.URI := "git+" +:+ repoURI;
                           Item.Digest := {[ "sha1" := SHA gh ]} |} ] |} |}
    end.
Proof. unfold completeStatement. by destruct (unmarshalEvent (Event gh)). Qed.

(** The statement, field by field. *)
Lemma buildStatement_spec (environ : gmap string string)
    (subjects : list Subject.t) (gh : Context) :
  buildStatement environ subjects gh
  = match unmarshalEvent (Event gh) with
    | inl err => inl (Wrap err "failed to unmarshal github context event json")
    | inr event =>
        inr {| Statement.Type_ := StatementType;
               Statement.PredicateType := SlsaPredicateType;
               Statement.Subject := subjects;
               Statement.Predicate :=
                 {| Predicate.Builder :=
                      {| Builder.ID :=
                           builderID environ ("https://github.com/" +:+ Repository gh) |};
                    Predicate.Recipe :=
                      {| Recipe.Type_ := typeID;
                         Recipe.DefinedInMaterial := 0;
                         Recipe.EntryPoint := Workflow gh;
                         Recipe.Arguments := Inputs event |};
                    Predicate.Metadata :=
                      {| Metadata.BuildInvocationID :=
                           "https://github.com/" +:+ Repository gh
                           +:+ "/actions/runs/" +:+ RunID gh |};
                    Predicate.Materials :=
                      [ {| Item.URI := "git+https://github.com/" +:+ Repository gh;
                           Item.Digest := {[ "sha1" := SHA gh ]} |} ] |} |}
    end.
Proof.
  unfold buildStatement. rewrite completeStatement_spec.
  destruct (unmarshalEvent (Event gh)); [done|].
  cbn. by rewrite string_app_assoc.
Qed.

(** The members of an [inputs] object with string values and distinct names
    are decoded into the mapping that holds exactly them. *)
Lemma unmarshalStrings_verbatim (kvs : list (string * string)) (m : gmap string string) :
  unmarshalStrings (map (λ kv, (fst kv, JString (snd kv))) kvs) m
  = inr (foldl (λ m kv, <[fst kv := snd kv]> m) m kvs).
Proof.
  revert m. induction kvs as [|[k v] kvs IH]; intros m; [done|]. cbn. apply IH.
Qed.

Lemma foldl_insert_list_to_map (kvs : list (string * string)) (m : gmap string string) :
  NoDup (map fst kvs) →
  foldl (λ m kv, <[fst kv := snd kv]> m) m kvs = list_to_map kvs ∪ m.
Proof.
  revert m. induction kvs as [|[k v] kvs IH]; intros m Hnd; cbn.
  - by rewrite (left_id_L ∅ (∪)).
  - change (NoDup (k :: map fst kvs)) in Hnd.
    apply NoDup_cons in Hnd as [Hk Hnd]. rewrite IH by done.
    rewrite <- insert_union_l. symmetry. apply insert_union_r.
    by apply not_elem_of_list_to_map_1.
Qed.

Lemma unmarshalEvent_inputs (kvs : list (string * string)) :
  NoDup (map fst kvs) →
  unmarshalEvent
    (Some (JObject [ ("inputs", JObject (map (λ kv, (fst kv, JString (snd kv))) kvs)) ]))
  = inr {| Inputs := list_to_map kvs |}.
Proof.
  intros Hnd. cbn [unmarshalEvent unmarshalMembers].
  change (EqualFold "inputs" "inputs") with true. cbv iota.
  rewrite unmarshalStrings_verbatim, foldl_insert_list_to_map by done.
  cbn [Inputs unmarshalMembers]. by rewrite (right_id_L ∅ (∪)).
Qed.

(** C4.  Whenever the event of the context decodes, the statement is
    assembled, and its recipe has the type
    [https://github.com/Attestations/GitHubActionsWorkflow@v1], the workflow
    name of the context as entry point, 0 for [definedInMaterial], and as
    arguments the inputs mapping of the event as it was decoded, nothing
    changed and no key left out. *)
Theorem recipe_assembled (environ : gmap string string)
    (subjects : list Subject.t) (gh : Context) (event : AnyEvent) :
  unmarshalEvent (Event gh) = inr event →
  ∃ stmt, buildStatement environ subjects gh = inr stmt
          ∧ Predicate.Recipe (Statement.Predicate stmt)
            = {| Recipe.Type_ := "https://github.com/Attestations/GitHubActionsWorkflow@v1";
                 Recipe.DefinedInMaterial := 0;
                 Recipe.EntryPoint := Workflow gh;
                 Recipe.Arguments := Inputs event |}.
Proof.
  intros Hev. unfold buildStatement. rewrite completeStatement_spec, Hev.
  eexists. split; reflexivity.
Qed.

Lemma recipe_assembled_witness :
  ∃ stmt, buildStatement (environ hostedWorld) [] dispatched = inr stmt
          ∧ Predicate.Recipe (Statement.Predicate stmt)
            = {| Recipe.Type_ := "https://github.com/Attestations/GitHubActionsWorkflow@v1";
                 Recipe.DefinedInMaterial := 0;
                 Recipe.EntryPoint := Workflow dispatched;
                 Recipe.Arguments := Inputs {| Inputs := {[ "env" := "prod" ]} |} |}.
Proof.
  apply (recipe_assembled (environ hostedWorld) [] dispatched
           {| Inputs := {[ "env" := "prod" ]} |}).
  vm_compute. reflexivity.
Defined.

(** C5.  The materials of an assembled statement are one item: the URI
    [git+https://github.com/] followed by the repository, and the digest
    that maps [sha1] to the commit SHA. *)
Theorem materials_assembled (environ : gmap string string)
    (subjects : list Subject.t) (gh : Context) (stmt : Statement.t) :
  buildStatement environ subjects gh = inr stmt →
  Predicate.Materials (Statement.Predicate stmt)
  = [ {| Item.URI := "git+https://github.com/" +:+ Repository gh;
         Item.Digest := {[ "sha1" := SHA gh ]} |} ].
Proof.
  unfold buildStatement. rewrite completeStatement_spec.
  destruct (unmarshalEvent (Event gh)); intros [= <-]; reflexivity.
Qed.

Lemma materials_assembled_witness :
  Predicate.Materials (Statement.Predicate dispatchedStatement)
  = [ {| Item.URI := "git+https://github.com/" +:+ Repository dispatched;
         Item.Digest := {[ "sha1" := SHA dispatched ]} |} ].
Proof.
  apply (materials_assembled (environ hostedWorld) [] dispatched dispatchedStatement).
  vm_compute. reflexivity.
Defined.

(** C8, amended.  The statement-building step fails in one case only:
    when the event of the context does not decode (it is missing, or it is
    not an object of the expected shape), and then with the error of the
    decoder under the message [failed to unmarshal github context event
    json].  Whenever the event decodes, the statement is assembled whatever
    the other fields of the context hold, and they reach it as they are:
    the repository in the builder identity, in the build-invocation
    identifier and in the URI of the material, the run ID in the
    build-invocation identifier, the workflow name as the entry point, the
    commit SHA as the digest of the material; the subjects are the ones
    given. *)
Theorem buildStatement_fails_on_event_only (environ : gmap string string)
    (subjects : list Subject.t) (gh : Context) :
  (∀ err, unmarshalEvent (Event gh) = inl err ↔
          buildStatement environ subjects gh
          = inl (Wrap err "failed to unmarshal github context event json"))
  ∧ (∀ event, unmarshalEvent (Event gh) = inr event →
       buildStatement environ subjects gh
       = inr {| Statement.Type_ := "https://in-toto.io/Statement/v0.1";
                Statement.PredicateType := "https://slsa.dev/provenance/v0.1";
                Statement.Subject := subjects;
                Statement.Predicate :=
                  {| Predicate.Builder :=
                       {| Builder.ID :=
                            if bool_decide (environ !! "GITHUB_ACTIONS" = Some "true")
                            then "https://github.com/" +:+ Repository gh
                                 +:+ "/Attestations/GitHubHostedActions@v1"
                            else "https://github.com/" +:+ Repository gh
                                 +:+ "/Attestations/SelfHostedActions@v1" |};
                     Predicate.Recipe :=
                       {| Recipe.Type_ :=
                            "https://github.com/Attestations/GitHubActionsWorkflow@v1";
                          Recipe.DefinedInMaterial := 0;
                          Recipe.EntryPoint := Workflow gh;
                          Recipe.Arguments := Inputs event |};
                     Predicate.Metadata :=
                       {| Metadata.BuildInvocationID :=
                            "https://github.com/" +:+ Repository gh
                            +:+ "/actions/runs/" +:+ RunID gh |};
                     Predicate.Materials :=
                       [ {| Item.URI := "git+https://github.com/" +:+ Repository gh;
                            Item.Digest := {[ "sha1" := SHA gh ]} |} ] |} |})
  ∧ (∀ err, buildStatement environ subjects gh = inl err →
       ∃ cause, unmarshalEvent (Event gh) = inl cause
                ∧ err = Wrap cause "failed to unmarshal github context event json").
Proof.
  rewrite buildStatement_spec. destruct (unmarshalEvent (Event gh)) as [cause|event].
  - split_and!.
    + intros err. split; [by intros [= ->]|]. unfold Wrap. by intros [= ->].
    + by intros event [=].
    + intros err [= <-]. eauto.
  - split_and!.
    + intros err. split; by intros [=].
    + intros ? [= <-]. rewrite builderID_hosted. unfold hosted.
      rewrite !string_app_assoc. by destruct (bool_decide _).
    + by intros err [=].
Qed.

(** A context whose fields are all empty, the event being null: the
    statement is assembled, with the fields as malformed as the context. *)
Example buildStatement_empty_context :
  ∃ stmt,
    buildStatement ∅ []
      {| Repository := ""; RunID := ""; Workflow := ""; SHA := "";
         Event := Some JNull |} = inr stmt
    ∧ Builder.ID (Predicate.Builder (Statement.Predicate stmt))
      = "https://github.com//Attestations/SelfHostedActions@v1"
    ∧ Predicate.Materials (Statement.Predicate stmt)
      = [ {| Item.URI := "git+https://github.com/"; Item.Digest := {[ "sha1" := "" ]} |} ].
Proof. eexists. split_and!; reflexivity. Qed.

(** C8, as the specification states it, fails: a context without an event
    payload is a build context for which the step returns an error, so the
    step does not succeed for every build context. *)
Lemma buildStatement_can_fail :
  buildStatement ∅ [] eventless
  = inl (Wrap (SyntaxError "unexpected end of JSON input")
              "failed to unmarshal github context event json")
  ∧ ¬ (∀ environ subjects gh, ∃ stmt, buildStatement environ subjects gh = inr stmt).
Proof.
  split; [reflexivity|]. intros Hall.
  destruct (Hall ∅ [] eventless) as [stmt Hstmt]. discriminate Hstmt.
Qed.

(** An event that is not an object fails as well. *)
Example buildStatement_event_not_object :
  buildStatement ∅ []
    {| Repository := "org/repo"; RunID := "42"; Workflow := "release";
       SHA := "abc123"; Event := Some (JString "push") |}
  = inl (Wrap (UnmarshalTypeError "string" "github.AnyEvent" "" "")
              "failed to unmarshal github context event json").
Proof. reflexivity. Qed.

(** ** I/O errors *)

Lemma hashFile_fatal root path info err s s' e :
  (∀ e0, err = Some e0 → fatal e0 = true) →
  hashFile root path info err s = (s', Some e) → fatal e = true.
Proof.
  intros Herr. unfold hashFile. destruct err as [e0|].
  { intros [= <- <-]. by apply Herr. }
  destruct info as [info|]; [|by intros [= <- <-]].
  destruct (IsDir info); [done|].
  unfold Rel. repeat case_match; try by intros [= <- <-].
  all: destruct info; simplify_eq/=; by intros [= <- <-].
Qed.

Lemma fatal_isSkipDir e : fatal e = true → isSkipDir e = false.
Proof. unfold fatal. by intros [?%negb_true_iff _]%andb_prop. Qed.

Lemma walk_fatal root t :
  ∀ path s s' e, walk (hashFile root) path t s = (s', Some e) → fatal e = true.
Proof.
  induction t as [e0|contents|op0 e0|op0 e0|entries IH] using node_ind; intros path s s' e.
  1-4: cbn [walk]; apply hashFile_fatal; by intros ? [= <-].
  cbn [walk]. rewrite hashFile_Dir.
  revert s. induction entries as [|[name child] entries IHentries]; intros s; [done|].
  inversion_clear IH as [|?? IHchild IHrest]. cbn [snd] in IHchild.
  specialize (IHentries IHrest).
  destruct child as [e0|contents|op0 e0|op0 e0|sub].
  1: destruct (hashFile root (Join [path; name]) None
                 (Some (PathError "lstat" (Join [path; name]) e0)) s)
       as [s1 [e1|]] eqn:Hcb; [|apply IHentries];
     apply hashFile_fatal in Hcb as Hf; [|by intros ? [= <-]].
  2-5: match goal with
       | |- context [walk (hashFile ?r) ?p ?c ?s0] =>
           destruct (walk (hashFile r) p c s0) as [s1 [e1|]] eqn:Hcb;
             [|apply IHentries]; apply IHchild in Hcb as Hf
       end.
  all: rewrite (fatal_isSkipDir _ Hf); cbn [negb orb IsDir]; rewrite ?orb_true_r;
    by intros [= <- <-].
Qed.

(** The walk of a tree in which something cannot be read stops with an
    error. *)
Lemma walk_unreadable root t :
  ∀ path s, readable t = false → ∃ s' e, walk (hashFile root) path t s = (s', Some e).
Proof.
  induction t as [e0|contents|op0 e0|op0 e0|entries IH] using node_ind; intros path s Hread.
  1,4: by do 2 eexists.
  1: discriminate Hread.
  1: cbn [walk hashFile IsDir ReadFile]; destruct (Rel root path); by do 2 eexists.
  cbn [walk]. rewrite hashFile_Dir. cbn [readable] in Hread.
  revert s. induction entries as [|[name child] entries IHentries]; intros s; [done|].
  inversion_clear IH as [|?? IHchild IHrest]. cbn [snd] in IHchild.
  cbn [forallb snd] in Hread. apply andb_false_iff in Hread.
  destruct child as [e0|contents|op0 e0|op0 e0|sub].
  1: destruct (hashFile root (Join [path; name]) None
                 (Some (PathError "lstat" (Join [path; name]) e0)) s)
       as [s1 [e1|]] eqn:Hcb; [|done];
     apply hashFile_fatal in Hcb as Hf; [|by intros ? [= <-]].
  2-5: match goal with
       | |- context [walk (hashFile ?r) ?p ?c ?s0] =>
           destruct (walk (hashFile r) p c s0) as [s1 [e1|]] eqn:Hcb;
             [apply walk_fatal in Hcb as Hf|]
       end.
  all: try (rewrite (fatal_isSkipDir _ Hf); cbn [negb orb IsDir]; rewrite ?orb_true_r;
            by eauto).
  all: destruct Hread as [Hread|Hread]; [|by apply IHentries].
  all: try done.
  all: destruct (IHchild (Join [path; name]) s Hread) as (? & ? & Hw); congruence.
Qed.

(** X3.  A scan that meets an entry it cannot read (an entry on which
    [os.Lstat] fails, a directory that cannot be listed, a file that cannot
    be read) is aborted: [Exec] gets an error and none of the subjects
    found before. *)
Lemma collectSubjects_unreadable (fsys : gmap string node) (root : string) (t : node) :
  fsys !! root = Some t → readable t = false →
  ∃ err, collectSubjects fsys root = inl err.
Proof.
  intros Hroot Hread. unfold collectSubjects, subjects, Walk. rewrite Hroot.
  destruct (walk_unreadable root t root [] Hread) as (s' & e & Hw). rewrite Hw.
  apply walk_fatal in Hw. unfold fatal in Hw.
  apply andb_prop in Hw as [Hd%negb_true_iff Ha%negb_true_iff]. rewrite Hd, Ha.
  cbn [orb]. destruct (IsNotExist (Some e)); eauto.
Qed.

Lemma collectSubjects_unreadable_witness :
  ∃ err, collectSubjects locked "dist" = inl err.
Proof. apply (collectSubjects_unreadable locked "dist" (Dir lockedEntries)); reflexivity. Defined.

(** ** The command *)

(** X2.  A flag left empty makes [Exec] show the usage and return the error
    that names the flag, before anything is scanned, decoded or written;
    the flags are looked at in the order artifact path, output path, github
    context, runner context. *)
Lemma Exec_required_flags (codec : Codec) (w : World) (flags : Flags) :
  (artifactPath flags = "" →
   Exec codec w flags
   = ([Usage], Some (errorString "no value found for required flag: -artifact_path")))
  ∧ (artifactPath flags ≠ "" → outputPath flags = "" →
     Exec codec w flags
     = ([Usage], Some (errorString "no value found for required flag: -output_path")))
  ∧ (artifactPath flags ≠ "" → outputPath flags ≠ "" → githubContext flags = "" →
     Exec codec w flags
     = ([Usage], Some (errorString "no value found for required flag: -github_context")))
  ∧ (artifactPath flags ≠ "" → outputPath flags ≠ "" → githubContext flags ≠ "" →
     runnerContext flags = "" →
     Exec codec w flags
     = ([Usage], Some (errorString "no value found for required flag: -runner_context"))).
Proof.
  unfold Exec. rewrite <- !String.eqb_neq, <- !String.eqb_eq.
  split_and!; intros; by repeat match goal with H : _ = _ |- _ => rewrite H end.
Qed.

(** X4.  A run whose scan, decoding and assembly succeed prints the line
    [Saving provenance to], the output path and the serialized statement,
    then calls [os.WriteFile] on the output path with that same text and
    mode 0755.  When the call fails, the printed text stays and the error is
    returned under the message [failed to write provenance]: a failure to
    open the file leaves it as it was; a failure to write leaves the file
    created or truncated, with the part of the text written before the
    failure; a failure to close leaves it with the text. *)
Lemma Exec_writes (codec : Codec) (w : World) (flags : Flags)
    (subjects : list Subject.t) (gh : Context) (stmt : Statement.t) :
  artifactPath flags ≠ "" → outputPath flags ≠ "" →
  githubContext flags ≠ "" → runnerContext flags ≠ "" →
  collectSubjects (fsys w) (artifactPath flags) = inr subjects →
  unmarshalContext codec (githubContext flags) = inr gh →
  unmarshalRunnerContext codec (runnerContext flags) = None →
  buildStatement (environ w) subjects gh = inr stmt →
  Exec codec w flags
  = let payload := MarshalIndent (quote codec) stmt in
    let shown :=
      Fprintf ("Saving provenance to " +:+ outputPath flags +:+ ":"
               +:+ LF +:+ LF +:+ payload +:+ LF) in
    match writeError w (outputPath flags) with
    | None => ([shown; WriteFile (outputPath flags) payload 493], None)
    | Some (OpenFails e) =>
        ([shown],
         Some (withMessage (PathError "open" (outputPath flags) e)
                           "failed to write provenance"))
    | Some (WriteFails written e) =>
        ([shown; WriteFile (outputPath flags) (String.substring 0 written payload) 493],
         Some (withMessage (PathError "write" (outputPath flags) e)
                           "failed to write provenance"))
    | Some (CloseFails e) =>
        ([shown; WriteFile (outputPath flags) payload 493],
         Some (withMessage (PathError "close" (outputPath flags) e)
                           "failed to write provenance"))
    end.
Proof.
  intros H1 H2 H3 H4 Hscan Hctx Hrun Hstmt. unfold Exec.
  apply String.eqb_neq in H1, H2, H3, H4. rewrite H1, H2, H3, H4.
  rewrite Hscan, Hctx, Hrun, Hstmt.
  by destruct (writeError w (outputPath flags)) as [[e|written e|e]|].
Qed.

Lemma Exec_writes_witness :
  Exec plainCodec fullDiskWorld generateFlags
  = let payload := MarshalIndent (quote plainCodec) dispatchedStatement' in
    let shown :=
      Fprintf ("Saving provenance to " +:+ outputPath generateFlags +:+ ":"
               +:+ LF +:+ LF +:+ payload +:+ LF) in
    match writeError fullDiskWorld (outputPath generateFlags) with
    | None => ([shown; WriteFile (outputPath generateFlags) payload 493], None)
    | Some (OpenFails e) =>
        ([shown],
         Some (withMessage (PathError "open" (outputPath generateFlags) e)
                           "failed to write provenance"))
    | Some (WriteFails written e) =>
        ([shown;
          WriteFile (outputPath generateFlags) (String.substring 0 written payload) 493],
         Some (withMessage (PathError "write" (outputPath generateFlags) e)
                           "failed to write provenance"))
    | Some (CloseFails e) =>
        ([shown; WriteFile (outputPath generateFlags) payload 493],
         Some (withMessage (PathError "close" (outputPath generateFlags) e)
                           "failed to write provenance"))
    end.
Proof.
  apply (Exec_writes plainCodec fullDiskWorld generateFlags
           (Statement.Subject dispatchedStatement') dispatched dispatchedStatement');
    try discriminate; vm_compute; reflexivity.
Defined.

(** The run on the full disk: the output file is left with the first 16
    bytes of the statement, and the error names the write. *)
Example Exec_full_disk :
  ∃ shown written,
    Exec plainCodec fullDiskWorld generateFlags
    = ([ Fprintf shown; WriteFile "build.provenance" written 493 ],
       Some (withMessage (PathError "write" "build.provenance" ENOSPC)
                         "failed to write provenance"))
    ∧ String.length written = 16%nat
    ∧ Error (withMessage (PathError "write" "build.provenance" ENOSPC)
                         "failed to write provenance")
      = "failed to write provenance: write build.provenance: no space left on device".
Proof. do 2 eexists. split_and!; vm_compute; reflexivity. Qed.

Lemma Exec_unresolved_witness :
  Exec plainCodec {| fsys := belowFile; environ := ∅; writeError := λ _, None |}
    {| artifactPath := "build/app.bin/sig";
       outputPath := "build.provenance";
       githubContext := "${github}";
       runnerContext := "${runner}" |}
  = ([], Some match ENOTDIR with
              | ENOENT => errorString ("resource path not found: [provided="
                                       +:+ "build/app.bin/sig" +:+ "]")
              | _ => PathError "lstat" "build/app.bin/sig" ENOTDIR
              end).
Proof.
  apply (Exec_unresolved plainCodec
           {| fsys := belowFile; environ := ∅; writeError := λ _, None |}
           {| artifactPath := "build/app.bin/sig";
              outputPath := "build.provenance";
              githubContext := "${github}";
              runnerContext := "${runner}" |} ENOTDIR);
    try discriminate; reflexivity.
Defined.

(** ** The outcome of a scan *)

Lemma scanOf_Dir_cons name child entries :
  scanOf (Dir ((name, child) :: entries))
  = let '(files, failure) := scanOf child in
    let files := map (λ f : list string * list byte, (name :: fst f, snd f)) files in
    match failure with
    | Some (names, op, e) => (files, Some (name :: names, op, e))
    | None => let '(files', failure') := scanOf (Dir entries) in (files ++ files', failure')
    end.
Proof. reflexivity. Qed.

Lemma scanOf_failure_names t files names op e :
  namesListed t = true → scanOf t = (files, Some (names, op, e)) →
  Forall (λ n, isName n = true) names.
Proof.
  revert files names op e.
  induction t as [e0|contents|op0 e0|op0 e0|entries IH] using node_ind;
    intros files names op e Hl; try (by intros [= <- <- <- <-]).
  apply namesListed_Dir in Hl. revert files.
  induction entries as [|[name child] entries IHentries]; intros files; [done|].
  inversion_clear IH as [|?? IHchild IHrest].
  inversion_clear Hl as [|?? [Hname Hchild] Hrest]. cbn [fst snd] in *.
  rewrite scanOf_Dir_cons.
  destruct (scanOf child) as [fs [[[p o] en]|]] eqn:Hc.
  - intros [= <- <- <- <-]. constructor; [done|]. by eapply IHchild.
  - destruct (scanOf (Dir entries)) as [fs' r'] eqn:Hr. intros [= <- ->].
    by eapply IHentries.
Qed.

Lemma scanOf_Dir_paths entries :
  Forall (λ f, fst f ≠ []) (fst (scanOf (Dir entries))).
Proof.
  induction entries as [|[name child] entries IH]; [constructor|].
  rewrite scanOf_Dir_cons.
  destruct (scanOf child) as [fs [[[p o] en]|]]; cbn [fst].
  - apply Forall_forall. by intros f (g & -> & _)%list_elem_of_fmap.
  - destruct (scanOf (Dir entries)) as [fs' r']. cbn [fst] in *.
    apply Forall_app. split; [|done].
    apply Forall_forall. by intros f (g & -> & _)%list_elem_of_fmap.
Qed.

Lemma scanOf_names t :
  namesListed t = true →
  Forall (λ f, Forall (λ n, isName n = true) (fst f)) (fst (scanOf t)).
Proof.
  induction t as [e|contents|op e|op e|entries IH] using node_ind; intros Hl;
    try by constructor.
  apply namesListed_Dir in Hl.
  induction entries as [|[name child] entries IHentries]; [constructor|].
  inversion_clear IH as [|?? IHchild IHrest].
  inversion_clear Hl as [|?? [Hname Hchild] Hrest]. cbn [fst snd] in *.
  specialize (IHchild Hchild). specialize (IHentries IHrest Hrest).
  rewrite scanOf_Dir_cons.
  assert (∀ fs, Forall (λ f, Forall (λ n, isName n = true) (fst f)) fs →
                Forall (λ f, Forall (λ n, isName n = true) (fst f))
                       (map (λ f : list string * list byte, (name :: fst f, snd f)) fs))
    as Hmap.
  { intros fs Hfs. apply Forall_forall. intros f (g & -> & Hg)%list_elem_of_fmap.
    cbn [fst]. constructor; [done|]. by eapply Forall_forall in Hfs. }
  destruct (scanOf child) as [fs [[[p o] en]|]]; cbn [fst] in *; [by apply Hmap|].
  destruct (scanOf (Dir entries)) as [fs' r']. cbn [fst] in *.
  apply Forall_app. split; [by apply Hmap|done].
Qed.

Lemma hashFile_Unreadable root names op e s :
  Forall (λ n, isName n = true) names →
  hashFile root (pathAt root names) (Some (Unreadable op e)) None s
  = (s, Some (PathError op (pathAt root names) e)).
Proof.
  intros Hns. unfold hashFile. cbn [IsDir ReadFile].
  destruct names as [|n names].
  - cbn [pathAt]. by rewrite Rel_same.
  - unfold pathAt. by rewrite Rel_below.
Qed.

(** The walk returns the subjects of the files met before the first entry
    that fails, and the error of that entry under the path built for it. *)
Lemma walk_scan root t :
  ∀ names s,
    namesListed t = true → Forall (λ n, isName n = true) names →
    walk (hashFile root) (pathAt root names) t s
    = (s ++ map (λ f, subjectOf root (names ++ fst f, snd f)) (fst (scanOf t)),
       match snd (scanOf t) with
       | Some (p, op, e) => Some (PathError op (pathAt root (names ++ p)) e)
       | None => None
       end).
Proof.
  induction t as [e0|contents|op0 e0|op0 e0|entries IH] using node_ind;
    intros names s Hl Hnames.
  - cbn. by rewrite !app_nil_r.
  - cbn [walk scanOf fst snd map]. rewrite app_nil_r. by apply hashFile_File.
  - cbn [walk scanOf fst snd map]. rewrite !app_nil_r. by apply hashFile_Unreadable.
  - cbn. by rewrite !app_nil_r.
  - apply namesListed_Dir in Hl. cbn [walk]. rewrite hashFile_Dir.
    revert s. induction entries as [|[name child] entries IHentries]; intros s.
    + cbn. by rewrite app_nil_r.
    + inversion_clear IH as [|?? IHchild IHrest].
      inversion_clear Hl as [|?? [Hname Hlchild] Hlrest]. cbn [fst snd] in *.
      specialize (IHentries IHrest Hlrest).
      assert (Forall (λ n, isName n = true) (names ++ [name])) as Hnames'.
      { apply Forall_app. split; [done|]. by constructor. }
      pose proof (IHchild (names ++ [name]) s Hlchild Hnames') as Hwalk.
      rewrite <- pathAt_step in Hwalk by done.
      rewrite scanOf_Dir_cons.
      destruct (scanOf child) as [fs [[[p o] en]|]] eqn:Hc; cbn [fst snd] in *.
      * assert (walk (hashFile root) (Join [pathAt root names; name]) child s
                = (s ++ map (λ f, subjectOf root (names ++ fst f, snd f))
                          (map (λ f : list string * list byte, (name :: fst f, snd f)) fs),
                   Some (PathError o (pathAt root (names ++ name :: p)) en))) as Hw.
        { rewrite Hwalk, map_map. rewrite <- !app_assoc. cbn [app]. f_equal. f_equal.
          apply map_ext. intros f. cbn [fst snd]. by rewrite <- app_assoc. }
        destruct child as [e0|contents|op0 e0|op0 e0|sub]; [|rewrite Hw; by cbn..].
        cbn in Hc. injection Hc as <- <- <- <-.
        rewrite <- (pathAt_step root names name) by done.
        cbn -[Join pathAt]. by rewrite app_nil_r.
      * assert (walk (hashFile root) (Join [pathAt root names; name]) child s
                = (s ++ map (λ f, subjectOf root (names ++ fst f, snd f))
                          (map (λ f : list string * list byte, (name :: fst f, snd f)) fs),
                   None)) as Hw.
        { rewrite Hwalk, map_map. f_equal. f_equal.
          apply map_ext. intros f. cbn [fst snd]. by rewrite <- app_assoc. }
        destruct (scanOf (Dir entries)) as [fs' r'] eqn:Hr. cbn [fst snd] in *.
        destruct child as [e0|contents|op0 e0|op0 e0|sub]; [done|rewrite Hw..];
          rewrite IHentries, map_app, app_assoc; reflexivity.
Qed.

Lemma scanOf_subjects fsys root t :
  fsys !! root = Some t → namesListed t = true →
  subjects fsys root
  = (map (subjectOf root) (fst (scanOf t)), failureError root (snd (scanOf t))).
Proof.
  intros Hroot Hl. unfold subjects, Walk. rewrite Hroot.
  change root with (pathAt root []) at 2. rewrite walk_scan by done.
  cbn [app]. destruct (scanOf t) as [files [[[p op] e]|]] eqn:Hscan; cbn [fst snd];
    [|done].
  unfold failureError. rewrite walkPath_pathAt; [done|]. by eapply scanOf_failure_names.
Qed.

(** X5.  For an entry whose directories list proper names, [subjects]
    returns the subjects of the regular files the walk meets before the
    first entry that fails, in the order of the walk, and the error of that
    entry: the [PathError] of the operation that failed ([lstat] on an
    entry; [open] or [readdirent] on a directory; [open] or [read] on a
    file, [read] being what a link to a directory fails in), under the path
    the walk built for the entry; and it returns no error when no entry
    fails. *)
Lemma subjects_scan (fsys : gmap string node) (root : string) (t : node)
    (files : list (list string * list byte))
    (failure : option (list string * string * Errno)) :
  fsys !! root = Some t → namesListed t = true → scanOf t = (files, failure) →
  subjects fsys root
  = (map (subjectOf root) files,
     match failure with
     | Some (names, op, e) => Some (PathError op (walkPath root names) e)
     | None => None
     end).
Proof.
  intros Hroot Hl Hscan. rewrite (scanOf_subjects _ _ _ Hroot Hl). by rewrite Hscan.
Qed.

Lemma subjects_scan_witness :
  subjects locked "dist"
  = (map (subjectOf "dist") [ (["a.txt"], bytes "hello") ],
     match Some (["key.pem"], "open", EACCES) with
     | Some (names, op, e) => Some (PathError op (walkPath "dist" names) e)
     | None => None
     end).
Proof.
  apply (subjects_scan locked "dist" (Dir lockedEntries)
           [ (["a.txt"], bytes "hello") ] (Some (["key.pem"], "open", EACCES)));
    reflexivity.
Defined.

(** X6.  The scan of [Exec] over a path the file system holds: the subjects
    when no entry fails; otherwise no subjects and the error of the first
    entry that fails, as [os] gave it, with the operation that failed
    ([lstat], [open], [readdirent] or [read]), unless that error is ENOENT
    (an entry gone since its directory was read, a link to nothing): then
    the error is [resource path not found] with the artifact path in it,
    although the artifact path exists. *)
Lemma collectSubjects_outcome (fsys : gmap string node) (root : string) (t : node) :
  fsys !! root = Some t → namesListed t = true →
  collectSubjects fsys root
  = match scanOf t with
    | (files, None) => inr (map (subjectOf root) files)
    | (_, Some (_, _, ENOENT)) =>
        inl (errorString ("resource path not found: [provided=" +:+ root +:+ "]"))
    | (_, Some (names, op, e)) => inl (PathError op (walkPath root names) e)
    end.
Proof.
  intros Hroot Hl. unfold collectSubjects. rewrite (scanOf_subjects _ _ _ Hroot Hl).
  destruct (scanOf t) as [files [[[p op] e]|]]; [|done]. by destruct e.
Qed.

Lemma collectSubjects_outcome_witness :
  collectSubjects vanished "dist"
  = match scanOf (Dir vanishedEntries) with
    | (files, None) => inr (map (subjectOf "dist") files)
    | (_, Some (_, _, ENOENT)) =>
        inl (errorString ("resource path not found: [provided=" +:+ "dist" +:+ "]"))
    | (_, Some (names, op, e)) => inl (PathError op (walkPath "dist" names) e)
    end.
Proof.
  apply (collectSubjects_outcome vanished "dist" (Dir vanishedEntries)); reflexivity.
Defined.

(** The scan of [vanished], evaluated: the walk stops at [cache/tmp.lock],
    and [Exec] reports [dist] as not found. *)
Example collectSubjects_vanished :
  scanOf (Dir vanishedEntries)
  = ([ (["a.txt"], bytes "hello") ], Some (["cache"; "tmp.lock"], "lstat", ENOENT))
  ∧ subjects vanished "dist"
    = ([ subjectOf "dist" (["a.txt"], bytes "hello") ],
       Some (PathError "lstat" "dist/cache/tmp.lock" ENOENT))
  ∧ collectSubjects vanished "dist"
    = inl (errorString "resource path not found: [provided=dist]").
Proof. split_and!; vm_compute; reflexivity. Qed.

(** The scan of [linked], evaluated: the link to a directory is opened and
    fails to be read. *)
Example subjects_linked :
  scanOf (Dir linkedEntries)
  = ([ (["a.txt"], bytes "hello") ], Some (["lnk"], "read", EISDIR))
  ∧ subjects linked "dist"
    = ([ subjectOf "dist" (["a.txt"], bytes "hello") ],
       Some (PathError "read" "dist/lnk" EISDIR))
  ∧ collectSubjects linked "dist" = inl (PathError "read" "dist/lnk" EISDIR)
  ∧ Error (PathError "read" "dist/lnk" EISDIR) = "read dist/lnk: is a directory".
Proof. split_and!; vm_compute; reflexivity. Qed.

(** X7.  [filepath.Rel] never fails on a path of the walk: an error that
    [subjects] returns for an existing entry is a [PathError] of [os], under
    the path the walk built for the entry that failed. *)
Lemma subjects_errors_come_from_os (fsys : gmap string node) (root : string) (t : node)
    (found : list Subject.t) (err : error) :
  fsys !! root = Some t → namesListed t = true →
  subjects fsys root = (found, Some err) →
  ∃ op names e,
    err = PathError op (walkPath root names) e ∧ Forall (λ n, isName n = true) names.
Proof.
  intros Hroot Hl. rewrite (scanOf_subjects _ _ _ Hroot Hl).
  destruct (scanOf t) as [files [[[p op] e]|]] eqn:Hscan; cbn; intros [= <- <-].
  exists op, p, e. split; [done|]. by eapply scanOf_failure_names.
Qed.

Lemma subjects_errors_come_from_os_witness :
  ∃ op names e,
    PathError "lstat" "dist/cache/tmp.lock" ENOENT = PathError op (walkPath "dist" names) e
    ∧ Forall (λ n, isName n = true) names.
Proof.
  apply (subjects_errors_come_from_os vanished "dist" (Dir vanishedEntries)
           [ subjectOf "dist" (["a.txt"], bytes "hello") ]
           (PathError "lstat" "dist/cache/tmp.lock" ENOENT));
    vm_compute; reflexivity.
Defined.

(** X9.  The name of every subject of a directory is a relative path made
    of names: it does not start with a separator, and its elements are
    neither empty nor [.] nor [..]. *)
Lemma subject_names_relative (fsys : gmap string node) (root : string)
    (entries : list (string * node)) :
  fsys !! root = Some (Dir entries) →
  namesListed (Dir entries) = true →
  Forall (λ s, rooted (Subject.Name s) = false
               ∧ split (Subject.Name s) ≠ []
               ∧ Forall (λ n, isName n = true) (split (Subject.Name s)))
         (fst (subjects fsys root)).
Proof.
  intros Hroot Hl. rewrite (scanOf_subjects _ _ _ Hroot Hl). cbn [fst].
  pose proof (scanOf_names _ Hl) as Hnames.
  pose proof (scanOf_Dir_paths entries) as Hpaths.
  rewrite Forall_forall in Hnames, Hpaths. apply Forall_forall.
  intros s (f & -> & Hf)%list_elem_of_fmap.
  specialize (Hnames f Hf). specialize (Hpaths f Hf).
  destruct f as [[|n names] contents]; [done|]. cbn [subjectOf fst snd Subject.Name] in *.
  assert (split (join (n :: names)) = n :: names) as Hsplit.
  { apply split_join; [done|]. eapply Forall_impl; [done|]. apply isName_noSeparator. }
  rewrite Hsplit. split_and!; [|done|done].
  inversion_clear Hnames as [|?? Hn _]. apply isName_spec in Hn as (Hne & _ & _ & Hsep).
  destruct (join_head n names) as [rest ->]. by apply rooted_noSeparator.
Qed.

Lemma subject_names_relative_witness :
  Forall (λ s, rooted (Subject.Name s) = false
               ∧ split (Subject.Name s) ≠ []
               ∧ Forall (λ n, isName n = true) (split (Subject.Name s)))
         (fst (subjects {[ "/" := Dir distEntries ]} "/")).
Proof.
  apply (subject_names_relative {[ "/" := Dir distEntries ]} "/" distEntries); reflexivity.
Defined.

(** ** The digest *)

Lemma round_length st kw : length (sha256.round st kw) = length st.
Proof.
  unfold sha256.round. do 9 (destruct st as [|? st]; try reflexivity).
Qed.

Lemma rounds_length kws st : length (fold_left sha256.round kws st) = length st.
Proof.
  revert st. induction kws as [|kw kws IH]; intros st; [done|].
  cbn [fold_left]. by rewrite IH, round_length.
Qed.

Lemma block_length h p : length (sha256.block h p) = length h.
Proof.
  unfold sha256.block. rewrite length_map, length_combine, rounds_length. lia.
Qed.

Lemma blocks_length ps h : length (fold_left sha256.block ps h) = length h.
Proof.
  revert h. induction ps as [|p ps IH]; intros h; [done|].
  cbn [fold_left]. by rewrite IH, block_length.
Qed.

Lemma be_bytes_length n x : length (sha256.be_bytes n x) = n.
Proof. induction n as [|n IH]; [done|]. cbn [sha256.be_bytes length]. by rewrite IH. Qed.

Lemma words_length (h : list Z) :
  length (concat (map (sha256.be_bytes 4) h)) = (4 * length h)%nat.
Proof.
  induction h as [|x h IH]; [done|].
  cbn [map concat]. rewrite length_app, be_bytes_length, IH. cbn [length]. lia.
Qed.

(** A digest is 32 bytes, whatever the length of the data. *)
Lemma Sum256_length data : length (sha256.Sum256 data) = 32%nat.
Proof.
  unfold sha256.Sum256, sha256.digest. rewrite length_map, words_length, blocks_length.
  reflexivity.
Qed.

Lemma digit_isLowerHex n : isLowerHex (hex.digit n) = true.
Proof.
  unfold hex.digit.
  destruct (String.get (Z.to_nat n) hex.hextable) as [c|] eqn:Hget; [|reflexivity].
  cbn [default]. revert Hget. generalize (Z.to_nat n) as i.
  intros i. do 17 (destruct i as [|i]; [by intros [= <-]|]). done.
Qed.

Lemma EncodeToString_length src :
  String.length (hex.EncodeToString src) = (2 * length src)%nat.
Proof.
  induction src as [|v src IH]; [done|].
  cbn [hex.EncodeToString String.length length]. rewrite IH. lia.
Qed.

Lemma EncodeToString_lowerHex src : lowerHex (hex.EncodeToString src) = true.
Proof.
  induction src as [|v src IH]; [done|].
  cbn [hex.EncodeToString lowerHex]. by rewrite !digit_isLowerHex, IH.
Qed.

(** What every call of the function keeps, the walk keeps. *)
Lemma walk_invariant {S : Type} (P : S → Prop) (walkFn : WalkFunc S) (t : node) :
  (∀ path info err s, P s → P (fst (walkFn path info err s))) →
  ∀ path s, P s → P (fst (walk walkFn path t s)).
Proof.
  intros Hfn.
  induction t as [e0|contents|op0 e0|op0 e0|entries IH] using node_ind; intros path s Hs;
    try (cbn [walk]; by apply Hfn).
  cbn [walk].
  pose proof (Hfn path (Some (Dir entries)) None s Hs) as Hs1.
  destruct (walkFn path (Some (Dir entries)) None s) as [s1 [e1|]]; [done|].
  cbn [fst] in Hs1. clear Hs. revert s1 Hs1.
  induction entries as [|[name child] entries IHentries]; intros s1 Hs1; [done|].
  inversion_clear IH as [|?? IHchild IHrest]. cbn [snd] in IHchild.
  specialize (IHentries IHrest).
  assert (∀ e, P (fst (walkFn (Join [path; name]) None e s1))) as HA
    by (intros e; by apply Hfn).
  pose proof (IHchild (Join [path; name]) s1 Hs1) as HB.
  destruct child as [e0|contents|op0 e0|op0 e0|sub].
  1: specialize (HA (Some (PathError "lstat" (Join [path; name]) e0)));
     destruct (walkFn (Join [path; name]) None _ s1) as [s2 [e2|]].
  3-6: destruct (walk walkFn (Join [path; name]) _ s1) as [s2 [e2|]].
  all: cbn [fst] in *; repeat case_match; try done; by apply IHentries.
Qed.

(** X10.  Whatever the file system and the artifact path, and whether the
    scan fails or not, every subject that [subjects] returns has a digest
    set of exactly one entry, under the key [sha256], whose value is 64
    lowercase hexadecimal digits. *)
Lemma subject_digest_format (fsys : gmap string node) (root : string) :
  Forall (λ s, sha256Digest (Subject.Digest s)) (fst (subjects fsys root)).
Proof.
  assert (∀ path info err s,
            Forall (λ s, sha256Digest (Subject.Digest s)) s →
            Forall (λ s, sha256Digest (Subject.Digest s))
                   (fst (hashFile root path info err s))) as Hstep.
  { intros path info err s Hs. unfold hashFile.
    repeat case_match; cbn [fst]; try done.
    all: apply Forall_app; split; [done|].
    all: constructor; [|done]; eexists; split_and!; [done| |].
    all: first [ by rewrite EncodeToString_length, Sum256_length
               | apply EncodeToString_lowerHex ]. }
  unfold subjects, Walk. destruct (fsys !! root) as [t|].
  - pose proof (walk_invariant _ _ t Hstep root [] (Forall_nil_2 _)) as Hw.
    destruct (walk (hashFile root) root t []) as [s [e|]]; [|done].
    by destruct (isSkipDir e || isSkipAll e).
  - cbn. constructor.
Qed.

(** ** The name of a single file *)

Lemma noSeparator_of_list l :
  noSeparator (string_of_list_ascii l) = forallb (λ c, negb (IsPathSeparator c)) l.
Proof. induction l as [|c l IH]; [done|]. cbn. by rewrite IH. Qed.

Lemma lastElement_noSeparator l :
  forallb (λ c, negb (IsPathSeparator c)) (lastElement l) = true.
Proof.
  induction l as [|c l IH]; [done|]. cbn [lastElement].
  destruct (IsPathSeparator c) eqn:Hc; [done|]. cbn. by rewrite Hc, IH.
Qed.

Lemma forallb_rev {A} (f : A → bool) l : forallb f (rev l) = forallb f l.
Proof.
  induction l as [|x l IH]; [done|]. cbn. rewrite forallb_app, IH. cbn.
  rewrite andb_true_r. apply andb_comm.
Qed.

(** The base name of a path is not empty, and it has no separator in it
    unless it is the root. *)
Lemma Base_element path :
  Base path ≠ "" ∧ (noSeparator (Base path) = true ∨ Base path = "/").
Proof.
  unfold Base. destruct (String.eqb_spec path ""); [by split; [|left]|].
  set (name := string_of_list_ascii _).
  destruct (String.eqb_spec name "") as [|Hne]; [by split; [|right]|].
  split; [done|]. left. unfold name.
  by rewrite noSeparator_of_list, forallb_rev, lastElement_noSeparator.
Qed.

Lemma list_ascii_app a b :
  list_ascii_of_string (a +:+ b) = list_ascii_of_string a ++ list_ascii_of_string b.
Proof.
  induction a as [|c a IH]; [done|].
  change (c :: list_ascii_of_string (a +:+ b)
          = c :: list_ascii_of_string a ++ list_ascii_of_string b). by rewrite IH.
Qed.

Lemma noSeparator_list n :
  noSeparator n = forallb (λ c, negb (IsPathSeparator c)) (list_ascii_of_string n).
Proof. induction n as [|c n IH]; [done|]. cbn. by rewrite IH. Qed.

Lemma stripSeparators_name l rest :
  l ≠ [] → forallb (λ c, negb (IsPathSeparator c)) l = true →
  stripSeparators (l ++ rest) = l ++ rest.
Proof.
  destruct l as [|c l]; [done|]. cbn. intros _ [Hc _]%andb_prop.
  apply negb_true_iff in Hc. by rewrite Hc.
Qed.

Lemma lastElement_name l rest :
  forallb (λ c, negb (IsPathSeparator c)) l = true →
  lastElement (l ++ "/"%char :: rest) = l.
Proof.
  induction l as [|c l IH]; [done|]. cbn. intros [Hc Hl]%andb_prop.
  apply negb_true_iff in Hc. by rewrite Hc, IH.
Qed.

Lemma lastElement_whole l :
  forallb (λ c, negb (IsPathSeparator c)) l = true → lastElement l = l.
Proof.
  induction l as [|c l IH]; [done|]. cbn. intros [Hc Hl]%andb_prop.
  apply negb_true_iff in Hc. by rewrite Hc, IH.
Qed.

(** The base name of a name is the name, and so is the base name of the
    name under a directory. *)
Lemma Base_name dir n :
  n ≠ "" → noSeparator n = true →
  Base n = n ∧ Base (dir +:+ String "/" n) = n.
Proof.
  intros Hne Hsep. rewrite noSeparator_list in Hsep.
  assert (rev (list_ascii_of_string n) ≠ []) as Hrev.
  { destruct n as [|c n]; [done|]. cbn. by destruct (rev (list_ascii_of_string n)). }
  assert (forallb (λ c, negb (IsPathSeparator c)) (rev (list_ascii_of_string n)) = true)
    as Hsep' by (by rewrite forallb_rev).
  apply String.eqb_neq in Hne as Hne'. split.
  - unfold Base. rewrite Hne'.
    rewrite <- (app_nil_r (rev (list_ascii_of_string n))).
    rewrite stripSeparators_name by done. rewrite app_nil_r.
    rewrite lastElement_whole by done.
    by rewrite rev_involutive, string_of_list_ascii_of_string, Hne'.
  - unfold Base.
    assert (dir +:+ String "/" n ≠ "") as Hd by (by destruct dir).
    apply String.eqb_neq in Hd. rewrite Hd.
    rewrite list_ascii_app. cbn [list_ascii_of_string]. rewrite rev_app_distr. cbn [rev].
    rewrite <- app_assoc. cbn [app].
    rewrite stripSeparators_name by done. rewrite lastElement_name by done.
    by rewrite rev_involutive, string_of_list_ascii_of_string, Hne'.
Qed.

(** X11.  A regular file given as [dir/name], whatever [dir] is (empty,
    absolute, with [.] and [..] in it, with trailing separators), yields one
    subject whose name is [name] alone: nothing of the directory part of the
    artifact path reaches the provenance. *)
Lemma single_file_subject_name (fsys : gmap string node) (dir n : string)
    (contents : list byte) :
  n ≠ "" → noSeparator n = true →
  fsys !! (dir +:+ "/" +:+ n) = Some (File contents) →
  subjects fsys (dir +:+ "/" +:+ n)
  = ([ {| Subject.Name := n;
          Subject.Digest :=
            {[ "sha256" := hex.EncodeToString (sha256.Sum256 contents) ]} |} ],
     None).
Proof.
  intros Hne Hsep Hroot. rewrite (subjects_found _ _ _ Hroot) by done.
  cbn [regularFiles map]. unfold subjectOf. cbn [fst snd].
  change (dir +:+ "/" +:+ n) with (dir +:+ String "/" n).
  by destruct (Base_name dir n Hne Hsep) as [_ ->].
Qed.

Lemma single_file_subject_name_witness :
  subjects outputs ("build" +:+ "/" +:+ "app.bin")
  = ([ {| Subject.Name := "app.bin";
          Subject.Digest :=
            {[ "sha256" := hex.EncodeToString (sha256.Sum256 (bytes "abc")) ]} |} ],
     None).
Proof.
  apply (single_file_subject_name outputs "build" "app.bin" (bytes "abc"));
    [discriminate|reflexivity|reflexivity].
Defined.

(** X12.  Whatever the artifact path of a regular file is, the name of its
    one subject is not empty and has no separator in it, the path [/]
    apart, whose base name is [/]. *)
Lemma single_file_subject_base (fsys : gmap string node) (root : string)
    (contents : list byte) :
  fsys !! root = Some (File contents) →
  ∃ name,
    subjects fsys root
    = ([ {| Subject.Name := name;
            Subject.Digest :=
              {[ "sha256" := hex.EncodeToString (sha256.Sum256 contents) ]} |} ],
       None)
    ∧ name ≠ "" ∧ (noSeparator name = true ∨ name = "/").
Proof.
  intros Hroot. exists (Base root). split; [|apply Base_element].
  by rewrite (subjects_found _ _ _ Hroot).
Qed.

Lemma single_file_subject_base_witness :
  ∃ name,
    subjects outputs "build/app.bin"
    = ([ {| Subject.Name := name;
            Subject.Digest :=
              {[ "sha256" := hex.EncodeToString (sha256.Sum256 (bytes "abc")) ]} |} ],
       None)
    ∧ name ≠ "" ∧ (noSeparator name = true ∨ name = "/").
Proof.
  apply (single_file_subject_base outputs "build/app.bin" (bytes "abc")). reflexivity.
Defined.

(** ** What [Exec] does and does not do *)

Lemma prefix_substring n s : String.prefix (String.substring 0 n s) s = true.
Proof.
  revert n. induction s as [|c s IH]; intros [|n]; cbn; try done.
  destruct (ascii_dec c c); [apply IH|done].
Qed.

Lemma prefix_refl s : String.prefix s s = true.
Proof. induction s as [|c s IH]; cbn; [done|]. by destruct (ascii_dec c c). Qed.

(** X13.  A run of [Exec] that returns no error has printed one text and
    then written one file: the payload that the text shows, to the output
    path, with mode 0755.  A run that returns an error has written no file,
    unless the error is that of [os.WriteFile] failing after it opened the
    output file (in the write or in the close): then the output file, and no
    other, was created or truncated, and holds a prefix of the payload
    shown. *)
Lemma Exec_file_effects (codec : Codec) (w : World) (flags : Flags) :
  match Exec codec w flags with
  | (effects, None) =>
      ∃ payload,
        effects = [ Fprintf ("Saving provenance to " +:+ outputPath flags +:+ ":"
                             +:+ LF +:+ LF +:+ payload +:+ LF);
                    WriteFile (outputPath flags) payload 493 ]
  | (effects, Some err) =>
      (∀ name data perm, WriteFile name data perm ∉ effects)
      ∨ ∃ payload data op e,
          effects = [ Fprintf ("Saving provenance to " +:+ outputPath flags +:+ ":"
                               +:+ LF +:+ LF +:+ payload +:+ LF);
                      WriteFile (outputPath flags) data 493 ]
          ∧ String.prefix data payload = true
          ∧ (op = "write" ∨ op = "close")
          ∧ err = withMessage (PathError op (outputPath flags) e)
                              "failed to write provenance"
  end.
Proof.
  assert (∀ l : list effect,
            (l = [] ∨ l = [Usage] ∨ ∃ text, l = [Fprintf text]) →
            ∀ name data perm, WriteFile name data perm ∉ l) as Hnone.
  { intros l [->|[->|[text ->]]] name data perm Hin;
      repeat (apply elem_of_cons in Hin as [Hin|Hin]; [done|]);
      by apply elem_of_nil in Hin. }
  unfold Exec.
  repeat case_match; simplify_eq; try (left; apply Hnone; by eauto).
  all: match goal with H : os.WriteFile _ _ _ _ = _ |- _ => unfold os.WriteFile in H end.
  all: repeat case_match; simplify_eq.
  - left. apply Hnone. eauto.
  - right. do 4 eexists.
    split_and!; [reflexivity|apply prefix_substring|by left|reflexivity].
  - right. do 4 eexists.
    split_and!; [reflexivity|apply prefix_refl|by right|reflexivity].
  - by eexists.
Qed.

(** X14.  [Exec] returns no error exactly when the four flags are not
    empty, the scan returns subjects, both contexts and the event decode,
    and the output file can be written. *)
Lemma Exec_succeeds_iff (codec : Codec) (w : World) (flags : Flags) :
  snd (Exec codec w flags) = None
  ↔ artifactPath flags ≠ "" ∧ outputPath flags ≠ ""
    ∧ githubContext flags ≠ "" ∧ runnerContext flags ≠ ""
    ∧ ∃ subjects gh stmt,
        collectSubjects (fsys w) (artifactPath flags) = inr subjects
        ∧ unmarshalContext codec (githubContext flags) = inr gh
        ∧ unmarshalRunnerContext codec (runnerContext flags) = None
        ∧ buildStatement (environ w) subjects gh = inr stmt
        ∧ writeError w (outputPath flags) = None.
Proof.
  unfold Exec. rewrite <- !String.eqb_neq. split.
  - repeat case_match; try done. intros _.
    match goal with H : os.WriteFile _ _ _ _ = _ |- _ => unfold os.WriteFile in H end.
    repeat case_match; simplify_eq. split_and!; try done. eauto 10.
  - intros (H1 & H2 & H3 & H4 & subs & gh & stmt & Hs & Hc & Hr & Hb & Hw).
    by rewrite H1, H2, H3, H4, Hs, Hc, Hr, Hb, Hw.
Qed.

(** X15.  The runner context is decoded and then left aside: two runs that
    differ in the runner context only, each with a runner context that
    decodes, show, write and return the same. *)
Lemma Exec_ignores_runner_context (codec : Codec) (w : World) (flags : Flags)
    (runner : string) :
  runnerContext flags ≠ "" → runner ≠ "" →
  unmarshalRunnerContext codec (runnerContext flags) = None →
  unmarshalRunnerContext codec runner = None →
  Exec codec w {| artifactPath := artifactPath flags;
                  outputPath := outputPath flags;
                  githubContext := githubContext flags;
                  runnerContext := runner |}
  = Exec codec w flags.
Proof.
  intros H1 H2 Hr1 Hr2. unfold Exec. cbn [artifactPath outputPath githubContext runnerContext].
  apply String.eqb_neq in H1, H2. by rewrite H1, H2, Hr1, Hr2.
Qed.

Lemma Exec_ignores_runner_context_witness :
  Exec plainCodec hostedWorld
       {| artifactPath := artifactPath generateFlags;
          outputPath := outputPath generateFlags;
          githubContext := githubContext generateFlags;
          runnerContext := "{}" |}
  = Exec plainCodec hostedWorld generateFlags.
Proof.
  apply (Exec_ignores_runner_context plainCodec hostedWorld generateFlags "{}");
    [discriminate|discriminate|reflexivity|reflexivity].
Defined.

(** X16.  After a scan that returned subjects, a github context that does
    not decode makes [Exec] return the decoder's error under the message
    [failed to unmarshal github context json], whatever the runner context
    is; a runner context that does not decode, after a github context that
    does, returns the decoder's error under [failed to unmarshal runner
    context json].  Neither run prints or writes anything. *)
Lemma Exec_context_errors (codec : Codec) (w : World) (flags : Flags)
    (found : list Subject.t) :
  artifactPath flags ≠ "" → outputPath flags ≠ "" →
  githubContext flags ≠ "" → runnerContext flags ≠ "" →
  collectSubjects (fsys w) (artifactPath flags) = inr found →
  (∀ err, unmarshalContext codec (githubContext flags) = inl err →
          Exec codec w flags = ([], Some (withMessage err "failed to unmarshal github context json"))
          ∧ Error (withMessage err "failed to unmarshal github context json")
            = "failed to unmarshal github context json: " +:+ Error err)
  ∧ (∀ gh err, unmarshalContext codec (githubContext flags) = inr gh →
               unmarshalRunnerContext codec (runnerContext flags) = Some err →
               Exec codec w flags
               = ([], Some (withMessage err "failed to unmarshal runner context json"))
               ∧ Error (withMessage err "failed to unmarshal runner context json")
                 = "failed to unmarshal runner context json: " +:+ Error err).
Proof.
  intros H1 H2 H3 H4 Hscan. unfold Exec.
  apply String.eqb_neq in H1, H2, H3, H4. rewrite H1, H2, H3, H4, Hscan.
  split.
  - intros err ->. split; reflexivity.
  - intros gh err -> ->. split; reflexivity.
Qed.

Lemma Exec_context_errors_witness :
  (∀ err, unmarshalContext strictCodec "{" = inl err →
          Exec strictCodec hostedWorld
               {| artifactPath := "dist"; outputPath := "build.provenance";
                  githubContext := "{"; runnerContext := "{" |}
          = ([], Some (withMessage err "failed to unmarshal github context json"))
          ∧ Error (withMessage err "failed to unmarshal github context json")
            = "failed to unmarshal github context json: " +:+ Error err)
  ∧ (∀ gh err, unmarshalContext strictCodec "{" = inr gh →
               unmarshalRunnerContext strictCodec "{" = Some err →
               Exec strictCodec hostedWorld
                    {| artifactPath := "dist"; outputPath := "build.provenance";
                       githubContext := "{"; runnerContext := "{" |}
               = ([], Some (withMessage err "failed to unmarshal runner context json"))
               ∧ Error (withMessage err "failed to unmarshal runner context json")
                 = "failed to unmarshal runner context json: " +:+ Error err).
Proof.
  apply (Exec_context_errors strictCodec hostedWorld
           {| artifactPath := "dist"; outputPath := "build.provenance";
              githubContext := "{"; runnerContext := "{" |}
           (map (subjectOf "dist") (regularFiles (Dir distEntries))));
    [discriminate|discriminate|discriminate|discriminate|vm_compute; reflexivity].
Defined.

(** ** Builder identities apart *)

Lemma list_ascii_inj a b : list_ascii_of_string a = list_ascii_of_string b → a = b.
Proof.
  intros Heq. by rewrite <- (string_of_list_ascii_of_string a),
    <- (string_of_list_ascii_of_string b), Heq.
Qed.

Lemma string_app_inv_tail (a b s : string) : a +:+ s = b +:+ s → a = b.
Proof.
  intros Heq. apply list_ascii_inj.
  apply (f_equal list_ascii_of_string) in Heq. rewrite !list_ascii_app in Heq.
  by apply app_inv_tail in Heq.
Qed.

Lemma suffixes_apart (a b : string) :
  a +:+ gitHubHostedIDSuffix ≠ b +:+ selfHostedIDSuffix.
Proof.
  intros Heq. apply (f_equal list_ascii_of_string) in Heq.
  rewrite !list_ascii_app in Heq.
  change (list_ascii_of_string gitHubHostedIDSuffix)
    with (list_ascii_of_string "/A"
          ++ list_ascii_of_string "ttestations/GitHubHostedActions@v1") in Heq.
  rewrite app_assoc in Heq. apply app_inj_2 in Heq as [_ Heq]; [|reflexivity].
  discriminate Heq.
Qed.

(** X17.  The builder identity tells the repository and the kind of runner
    apart: two identities are equal only for the same repository URI and
    the same answer to whether GITHUB_ACTIONS is [true]. *)
Lemma builderID_inj (environ1 environ2 : gmap string string) (repoURI1 repoURI2 : string) :
  builderID environ1 repoURI1 = builderID environ2 repoURI2 →
  repoURI1 = repoURI2 ∧ hosted environ1 = hosted environ2.
Proof.
  rewrite !builderID_hosted.
  destruct (hosted environ1), (hosted environ2); intros Heq.
  - split; [|done]. by eapply string_app_inv_tail.
  - by apply suffixes_apart in Heq.
  - symmetry in Heq. by apply suffixes_apart in Heq.
  - split; [|done]. by eapply string_app_inv_tail.
Qed.

Lemma builderID_inj_witness :
  "https://github.com/org/repo" = "https://github.com/" +:+ "org/repo"
  ∧ hosted (environ hostedWorld) = hosted (environ hostedWorld').
Proof.
  apply (builderID_inj (environ hostedWorld) (environ hostedWorld')
           "https://github.com/org/repo" ("https://github.com/" +:+ "org/repo")).
  reflexivity.
Defined.

(** X18.  Lines 130-145 of [Exec] write the recipe and the materials and
    nothing else: the statement keeps its type, predicate type, subjects,
    builder and metadata, and the recipe and materials written do not
    depend on the statement they are written into. *)
Lemma completeStatement_frame (stmt0 : Statement.t) (repoURI : string) (gh : Context)
    (stmt : Statement.t) :
  completeStatement stmt0 repoURI gh = inr stmt →
  Statement.Type_ stmt = Statement.Type_ stmt0
  ∧ Statement.PredicateType stmt = Statement.PredicateType stmt0
  ∧ Statement.Subject stmt = Statement.Subject stmt0
  ∧ Predicate.Builder (Statement.Predicate stmt)
    = Predicate.Builder (Statement.Predicate stmt0)
  ∧ Predicate.Metadata (Statement.Predicate stmt)
    = Predicate.Metadata (Statement.Predicate stmt0)
  ∧ ∀ stmt0', completeStatement stmt0' repoURI gh
              = inr (setPredicate
                       {| Predicate.Builder := Predicate.Builder (Statement.Predicate stmt0');
                          Predicate.Recipe := Predicate.Recipe (Statement.Predicate stmt);
                          Predicate.Metadata := Predicate.Metadata (Statement.Predicate stmt0');
                          Predicate.Materials := Predicate.Materials (Statement.Predicate stmt) |}
                       stmt0').
Proof.
  rewrite completeStatement_spec.
  destruct (unmarshalEvent (Event gh)) as [|event] eqn:Hev; intros [= <-].
  split_and!; try reflexivity. intros stmt0'. by rewrite completeStatement_spec, Hev.
Qed.

Lemma completeStatement_frame_witness :
  Statement.Type_ dispatchedStatement' = Statement.Type_ dispatchedStatement'
  ∧ Statement.PredicateType dispatchedStatement'
    = Statement.PredicateType dispatchedStatement'
  ∧ Statement.Subject dispatchedStatement' = Statement.Subject dispatchedStatement'
  ∧ Predicate.Builder (Statement.Predicate dispatchedStatement')
    = Predicate.Builder (Statement.Predicate dispatchedStatement')
  ∧ Predicate.Metadata (Statement.Predicate dispatchedStatement')
    = Predicate.Metadata (Statement.Predicate dispatchedStatement')
  ∧ ∀ stmt0', completeStatement stmt0' "https://github.com/org/repo" dispatched
              = inr (setPredicate
                       {| Predicate.Builder := Predicate.Builder (Statement.Predicate stmt0');
                          Predicate.Recipe :=
                            Predicate.Recipe (Statement.Predicate dispatchedStatement');
                          Predicate.Metadata := Predicate.Metadata (Statement.Predicate stmt0');
                          Predicate.Materials :=
                            Predicate.Materials (Statement.Predicate dispatchedStatement') |}
                       stmt0').
Proof.
  apply (completeStatement_frame dispatchedStatement' "https://github.com/org/repo"
           dispatched dispatchedStatement').
  vm_compute. reflexivity.
Defined.
